(** * Whiteboard: the annotation compositor of aveti-eduboard

    A shallow embedding of [src/components/Whiteboard.tsx] (with the data
    declarations of the repository's [types] module and the
    [updateSlideStrokes] callback of [src/App.tsx]).

    Conventions of the embedding.
    - A JavaScript [number] is a rational [Q]: arithmetic is exact, the
      rounding of binary64 is not modelled.  Wall-clock readings
      ([Date.now()], integral milliseconds) are [Z].
    - The 2D drawing context is a record holding the style properties the
      component assigns, the current path, and the list of paint operations
      performed so far, each with the style in force when it was issued.
      Colour strings are stored as assigned.
    - The functions of the platform's [Math] object that have no rational
      counterpart are the fields of the class [JsMath].
    - React state is threaded explicitly; an event handler runs against the
      state committed by the previous one. *)

From Stdlib Require Import ZArith QArith Qminmax Lia Lqa List String Bool.
Import ListNotations.

Local Open Scope Z_scope.

(* ================================================================== *)
(** * Data model (the [types] module) *)
(* ================================================================== *)

Inductive ToolType : Type :=
| PEN | HIGHLIGHTER | ERASER | LASER | RECTANGLE | CIRCLE | ARROW | TEXT.

Definition ToolType_eqb (a b : ToolType) : bool :=
  match a, b with
  | PEN, PEN | HIGHLIGHTER, HIGHLIGHTER | ERASER, ERASER | LASER, LASER
  | RECTANGLE, RECTANGLE | CIRCLE, CIRCLE | ARROW, ARROW | TEXT, TEXT => true
  | _, _ => false
  end.

(** [{ x: number; y: number; t?: number }] *)
Record Point : Type := mkPoint {
  px : Q;
  py : Q;
  pt : option Z
}.

(** [{ id; tool; points; color; width; isFilled? }] *)
Record Stroke : Type := mkStroke {
  stroke_id : string;
  stroke_tool : ToolType;
  points : list Point;
  stroke_color : string;
  stroke_width : Q;
  isFilled : option bool
}.

(** [{ id; thumbnailUrl; fullUrl; strokes; notes }] *)
Record Slide : Type := mkSlide {
  slide_id : string;
  thumbnailUrl : string;
  fullUrl : string;
  strokes : list Stroke;
  notes : string
}.

(** [{ ...s, strokes }] *)
Definition with_strokes (s : Slide) (l : list Stroke) : Slide :=
  mkSlide (slide_id s) (thumbnailUrl s) (fullUrl s) l (notes s).

(** [{ ...prev, points }] *)
Definition with_points (s : Stroke) (l : list Point) : Stroke :=
  mkStroke (stroke_id s) (stroke_tool s) l (stroke_color s) (stroke_width s)
           (isFilled s).

(** [l[i]].  The component reads only indices below [l.length], and
    [prev.points[0]] in [draw], where the list was seeded by [startDrawing];
    past the end the model yields [origin] where JavaScript yields
    [undefined]. *)
Definition origin : Point := mkPoint 0 0 None.
Definition at_index (l : list Point) (i : nat) : Point := nth i l origin.

(* ================================================================== *)
(** * Laser constants and the decay computation of [redraw] *)
(* ================================================================== *)

Definition LASER_HOLD_MS : Z := 2000.
Definition LASER_FADE_MS : Z := 1000.

(** Lines 293-315 of [redraw]: the pair [(laserOpacity, hasLaser)] from the
    flag [isDrawingLaser], the clock reading [now] and
    [laserState.current.lastActive]. *)
Definition laserDecay (isDrawingLaser : bool) (now lastActive : Z) : Q * bool :=
  if isDrawingLaser then (1%Q, true)
  else
    let timeSinceActive := now - lastActive in
    if timeSinceActive <? LASER_HOLD_MS then (1%Q, true)
    else if timeSinceActive <? LASER_HOLD_MS + LASER_FADE_MS then
      ((1 - (inject_Z (timeSinceActive - LASER_HOLD_MS) / inject_Z LASER_FADE_MS))%Q,
       true)
    else (0%Q, false).

Definition laserOpacity (isDrawingLaser : bool) (now lastActive : Z) : Q :=
  fst (laserDecay isDrawingLaser now lastActive).

(* ================================================================== *)
(** * The 2D drawing context *)
(* ================================================================== *)

(** Functions of the platform's [Math] object used by the renderer. *)
Class JsMath : Type := {
  Math_sqrt : Q -> Q;
  Math_pow : Q -> Q -> Q;
  Math_atan2 : Q -> Q -> Q;
  Math_cos : Q -> Q;
  Math_sin : Q -> Q;
  Math_PI : Q
}.

(** [Math.max(a, b)] *)
Definition Math_max (a b : Q) : Q := Qmax a b.

(** [a > b] and [a <= b] on numbers. *)
Definition Qgtb (a b : Q) : bool := negb (Qle_bool a b).

Record Style : Type := mkStyle {
  lineWidth : Q;
  lineCap : string;
  lineJoin : string;
  shadowBlur : Q;
  shadowColor : string;
  globalCompositeOperation : string;
  globalAlpha : Q;
  strokeStyle : string;
  fillStyle : string
}.

Inductive PathCmd : Type :=
| MoveTo (x y : Q)
| LineTo (x y : Q)
| QuadraticCurveTo (cpx cpy x y : Q)
| Arc (x y radius startAngle endAngle : Q).

(** What [drawImage] is given. *)
Inductive ImageSource : Type :=
| VideoFrame
| LoadedImage (src : string)
| CanvasBitmap (content : list Paint)

(** One paint operation, with the style in force when it was issued. *)
with Paint : Type :=
| Stroked (st : Style) (p : list PathCmd)
| Filled (st : Style) (p : list PathCmd)
| StrokedRect (st : Style) (x y w h : Q)
| FilledRect (st : Style) (x y w h : Q)
| ClearedRect (x y w h : Q)
| DrewImage (st : Style) (src : ImageSource) (x y : Q) (size : option (Q * Q)).

Record Ctx : Type := mkCtx {
  style : Style;
  path : list PathCmd;
  painted : list Paint
}.

(** A sequence of calls on one context. *)
Definition Draw : Type := Ctx -> Ctx.

Definition skip : Draw := fun c => c.
Definition andThen (a b : Draw) : Draw := fun c => b (a c).

Declare Scope draw_scope.
Delimit Scope draw_scope with draw.
Bind Scope draw_scope with Draw.
Notation "a ;; b" := (andThen a b) (at level 61, right associativity) : draw_scope.

(** [for (let i = lo; i < hi; i++) body(i)] *)
Definition forRange (lo hi : nat) (body : nat -> Draw) : Draw :=
  fun c => fold_left (fun acc i => body i acc) (seq lo (hi - lo)) c.

Definition on_style (f : Style -> Style) : Draw :=
  fun c => mkCtx (f (style c)) (path c) (painted c).

Definition set_lineWidth (v : Q) : Draw :=
  on_style (fun s => mkStyle v (lineCap s) (lineJoin s) (shadowBlur s)
    (shadowColor s) (globalCompositeOperation s) (globalAlpha s)
    (strokeStyle s) (fillStyle s)).
Definition set_lineCap (v : string) : Draw :=
  on_style (fun s => mkStyle (lineWidth s) v (lineJoin s) (shadowBlur s)
    (shadowColor s) (globalCompositeOperation s) (globalAlpha s)
    (strokeStyle s) (fillStyle s)).
Definition set_lineJoin (v : string) : Draw :=
  on_style (fun s => mkStyle (lineWidth s) (lineCap s) v (shadowBlur s)
    (shadowColor s) (globalCompositeOperation s) (globalAlpha s)
    (strokeStyle s) (fillStyle s)).
Definition set_shadowBlur (v : Q) : Draw :=
  on_style (fun s => mkStyle (lineWidth s) (lineCap s) (lineJoin s) v
    (shadowColor s) (globalCompositeOperation s) (globalAlpha s)
    (strokeStyle s) (fillStyle s)).
Definition set_shadowColor (v : string) : Draw :=
  on_style (fun s => mkStyle (lineWidth s) (lineCap s) (lineJoin s)
    (shadowBlur s) v (globalCompositeOperation s) (globalAlpha s)
    (strokeStyle s) (fillStyle s)).
Definition set_globalCompositeOperation (v : string) : Draw :=
  on_style (fun s => mkStyle (lineWidth s) (lineCap s) (lineJoin s)
    (shadowBlur s) (shadowColor s) v (globalAlpha s)
    (strokeStyle s) (fillStyle s)).
Definition set_globalAlpha (v : Q) : Draw :=
  on_style (fun s => mkStyle (lineWidth s) (lineCap s) (lineJoin s)
    (shadowBlur s) (shadowColor s) (globalCompositeOperation s) v
    (strokeStyle s) (fillStyle s)).
Definition set_strokeStyle (v : string) : Draw :=
  on_style (fun s => mkStyle (lineWidth s) (lineCap s) (lineJoin s)
    (shadowBlur s) (shadowColor s) (globalCompositeOperation s)
    (globalAlpha s) v (fillStyle s)).
Definition set_fillStyle (v : string) : Draw :=
  on_style (fun s => mkStyle (lineWidth s) (lineCap s) (lineJoin s)
    (shadowBlur s) (shadowColor s) (globalCompositeOperation s)
    (globalAlpha s) (strokeStyle s) v).

Definition beginPath : Draw :=
  fun c => mkCtx (style c) [] (painted c).
Definition extend_path (cmd : PathCmd) : Draw :=
  fun c => mkCtx (style c) (path c ++ [cmd]) (painted c).
Definition moveTo (x y : Q) : Draw := extend_path (MoveTo x y).
Definition lineTo (x y : Q) : Draw := extend_path (LineTo x y).
Definition quadraticCurveTo (cpx cpy x y : Q) : Draw :=
  extend_path (QuadraticCurveTo cpx cpy x y).
Definition arc (x y r a0 a1 : Q) : Draw := extend_path (Arc x y r a0 a1).

Definition paint (f : Ctx -> Paint) : Draw :=
  fun c => mkCtx (style c) (path c) (painted c ++ [f c]).
Definition stroke : Draw := paint (fun c => Stroked (style c) (path c)).
Definition fill : Draw := paint (fun c => Filled (style c) (path c)).
Definition strokeRect (x y w h : Q) : Draw :=
  paint (fun c => StrokedRect (style c) x y w h).
Definition fillRect (x y w h : Q) : Draw :=
  paint (fun c => FilledRect (style c) x y w h).
Definition clearRect (x y w h : Q) : Draw :=
  paint (fun _ => ClearedRect x y w h).
Definition drawImage (src : ImageSource) (x y : Q) (size : option (Q * Q)) : Draw :=
  paint (fun c => DrewImage (style c) src x y size).

(* ================================================================== *)
(** * [renderStroke] *)
(* ================================================================== *)

Section Renderer.
Context {M : JsMath}.
Local Open Scope draw_scope.

(** The taper of the laser segment that starts at index [i] of [n] points
    (lines 165-166). *)
Definition taperFactor (i n : nat) : Q :=
  let progress := (inject_Z (Z.of_nat i) / inject_Z (Z.of_nat n))%Q in
  ((1 # 2) + ((1 # 2) * progress))%Q.

(** Lines 143-186: the laser branch. *)
Definition renderLaser (s : Stroke) (opacityOverride : option Q) : Draw :=
  set_shadowBlur 15 ;;
  set_shadowColor (stroke_color s) ;;
  set_globalCompositeOperation "source-over" ;;
  if (List.length (points s) <? 1)%nat then skip
  else
    let life := match opacityOverride with Some o => o | None => 1%Q end in
    if Qle_bool life 0 then skip
    else
      set_globalAlpha life ;;
      forRange 0 (List.length (points s) - 1) (fun i =>
        let p1 := at_index (points s) i in
        let p2 := at_index (points s) (i + 1) in
        beginPath ;;
        set_lineWidth (Math_max 1 (stroke_width s * taperFactor i (List.length (points s)))) ;;
        set_strokeStyle (stroke_color s) ;;
        moveTo (px p1) (py p1) ;;
        lineTo (px p2) (py p2) ;;
        stroke) ;;
      (if Qgtb life 0 then
         let last := at_index (points s) (List.length (points s) - 1) in
         beginPath ;;
         set_fillStyle (stroke_color s) ;;
         arc (px last) (py last) (stroke_width s / (3 # 2)) 0 (Math_PI * 2) ;;
         fill
       else skip).

(** Lines 207-226: the smoothed freehand path. *)
Definition renderFreehand (s : Stroke) : Draw :=
  let pts := points s in
  let n := List.length pts in
  moveTo (px (at_index pts 0)) (py (at_index pts 0)) ;;
  (if (2 <? n)%nat then
     forRange 1 (n - 2) (fun i =>
       let xc := ((px (at_index pts i) + px (at_index pts (i + 1))) / 2)%Q in
       let yc := ((py (at_index pts i) + py (at_index pts (i + 1))) / 2)%Q in
       quadraticCurveTo (px (at_index pts i)) (py (at_index pts i)) xc yc) ;;
     quadraticCurveTo
       (px (at_index pts (n - 2))) (py (at_index pts (n - 2)))
       (px (at_index pts (n - 1))) (py (at_index pts (n - 1)))
   else
     forRange 1 n (fun i =>
       lineTo (px (at_index pts i)) (py (at_index pts i)))) ;;
  stroke.

(** Lines 227-253: the three shapes. *)
Definition renderRectangle (s : Stroke) : Draw :=
  let start := at_index (points s) 0 in
  let end_ := at_index (points s) (List.length (points s) - 1) in
  strokeRect (px start) (py start) (px end_ - px start) (py end_ - py start).

Definition renderCircle (s : Stroke) : Draw :=
  let start := at_index (points s) 0 in
  let end_ := at_index (points s) (List.length (points s) - 1) in
  let radius := Math_sqrt (Math_pow (px end_ - px start) 2
                           + Math_pow (py end_ - py start) 2) in
  beginPath ;;
  arc (px start) (py start) radius 0 (2 * Math_PI) ;;
  stroke.

Definition renderArrow (s : Stroke) : Draw :=
  let start := at_index (points s) 0 in
  let end_ := at_index (points s) (List.length (points s) - 1) in
  let headLen := (stroke_width s * 5)%Q in
  let angle := Math_atan2 (py end_ - py start) (px end_ - px start) in
  moveTo (px start) (py start) ;;
  lineTo (px end_) (py end_) ;;
  stroke ;;
  beginPath ;;
  moveTo (px end_) (py end_) ;;
  lineTo (px end_ - headLen * Math_cos (angle - Math_PI / 6))
         (py end_ - headLen * Math_sin (angle - Math_PI / 6)) ;;
  moveTo (px end_) (py end_) ;;
  lineTo (px end_ - headLen * Math_cos (angle + Math_PI / 6))
         (py end_ - headLen * Math_sin (angle + Math_PI / 6)) ;;
  stroke.

(** Lines 189-253: every tool but the laser. *)
Definition renderStandard (s : Stroke) : Draw :=
  beginPath ;;
  set_strokeStyle (stroke_color s) ;;
  (match stroke_tool s with
   | HIGHLIGHTER =>
       set_globalAlpha (1 # 2) ;;
       set_globalCompositeOperation "multiply" ;;
       (if String.eqb (stroke_color s) EmptyString
        then set_strokeStyle "#ffff00" else skip)
   | ERASER =>
       set_globalCompositeOperation "destination-out" ;;
       set_globalAlpha 1 ;;
       set_strokeStyle "rgba(0,0,0,1)"
   | _ =>
       set_globalAlpha 1 ;;
       set_globalCompositeOperation "source-over"
   end) ;;
  if (List.length (points s) =? 0)%nat then skip
  else
    match stroke_tool s with
    | PEN | HIGHLIGHTER | ERASER => renderFreehand s
    | RECTANGLE => renderRectangle s
    | CIRCLE => renderCircle s
    | ARROW => renderArrow s
    | _ => skip
    end.

(** [renderStroke(ctx, s, opacityOverride?)] *)
Definition renderStroke (s : Stroke) (opacityOverride : option Q) : Draw :=
  set_lineWidth (stroke_width s) ;;
  set_lineCap "round" ;;
  set_lineJoin "round" ;;
  set_shadowBlur 0 ;;
  if ToolType_eqb (stroke_tool s) LASER
  then renderLaser s opacityOverride
  else renderStandard s.

End Renderer.

(* ================================================================== *)
(** * The component: props, state, refs *)
(* ================================================================== *)

Record MediaStream : Type := mkMediaStream { stream_id : string }.

Record Image : Type := mkImage {
  img_src : string;
  img_width : Q;
  img_height : Q
}.

(** An [HTMLCanvasElement]: its pixel size and what [getContext('2d')]
    returns. *)
Record Canvas : Type := mkCanvas {
  canvas_width : Q;
  canvas_height : Q;
  context2d : option Ctx
}.

Definition defaultStyle : Style :=
  mkStyle 1 "butt" "miter" 0 "rgba(0, 0, 0, 0)" "source-over" 1
          "#000000" "#000000".
Definition freshCtx : Ctx := mkCtx defaultStyle [] [].

(** [document.createElement('canvas')] *)
Definition createCanvas : Canvas := mkCanvas 300 150 (Some freshCtx).

(** Assigning [width] and [height] resets the bitmap and the context. *)
Definition resizeCanvas (c : Canvas) (w h : Q) : Canvas :=
  mkCanvas w h (option_map (fun _ => freshCtx) (context2d c)).

Definition with_context (c : Canvas) (ctx : Ctx) : Canvas :=
  mkCanvas (canvas_width c) (canvas_height c) (Some ctx).

(** [WhiteboardProps] *)
Record Props : Type := mkProps {
  slide : Slide;
  tool : ToolType;
  color : string;
  width : Q;
  screenStream : option MediaStream
}.

(** The [useState] cells the handlers and [redraw] read, and the
    [laserState] ref. *)
Record State : Type := mkState {
  isDrawing : bool;
  currentStroke : option Stroke;
  backgroundImage : option Image;
  cursorPos : Q * Q;
  lastActive : Z
}.

(** [canvasRef.current], [memCanvasRef.current], and whether
    [videoRef.current] is set. *)
Record Surfaces : Type := mkSurfaces {
  canvasRef : option Canvas;
  memCanvasRef : option Canvas;
  videoRef : bool
}.

(** One call [onUpdateSlide(slideId, strokes)]. *)
Definition Update : Type := (string * list Stroke)%type.

Definition isSome {A} (o : option A) : bool :=
  match o with Some _ => true | None => false end.

Definition isLaser (s : Stroke) : bool := ToolType_eqb (stroke_tool s) LASER.

(* ================================================================== *)
(** * [redraw] and the animation loop *)
(* ================================================================== *)

(** The body of the [setTimeout] callback of lines 345-350, run on the
    slide its closure captured: the calls of [onUpdateSlide] it makes. *)
Definition laserCleanup (captured : Slide) : list Update :=
  let nonLaserStrokes := filter (fun s => negb (isLaser s)) (strokes captured) in
  if negb (List.length nonLaserStrokes =? List.length (strokes captured))%nat
  then [(slide_id captured, nonLaserStrokes)]
  else [].

(** What one call of [redraw] leaves behind: the two canvases, the
    timeouts it scheduled (each closure stands for the slide it captured),
    and the returned value ([None] for a bare [return]). *)
Record RedrawResult : Type := mkRedrawResult {
  r_surfaces : Surfaces;
  r_timeouts : list Slide;
  r_return : option bool
}.

Section Compositor.
Context {M : JsMath}.
Local Open Scope draw_scope.

(** Lines 262-277: the background layer. *)
Definition drawBackground (P : Props) (st : State) (sf : Surfaces)
    (w h : Q) : Draw :=
  set_globalCompositeOperation "source-over" ;;
  clearRect 0 0 w h ;;
  if isSome (screenStream P) && videoRef sf then
    drawImage VideoFrame 0 0 (Some (w, h))
  else
    match backgroundImage st with
    | Some img => drawImage (LoadedImage (img_src img)) 0 0 (Some (w, h))
    | None => set_fillStyle "#FFFFFF" ;; fillRect 0 0 w h
    end.

(** Line 298. *)
Definition isDrawingLaser (st : State) : bool :=
  isDrawing st &&
  match currentStroke st with
  | Some s => ToolType_eqb (stroke_tool s) LASER
  | None => false
  end.

(** Lines 318-332: the ink layer. *)
Definition drawInk (P : Props) (st : State) (laserOpacity : Q) : Draw :=
  (fun c =>
     fold_left
       (fun acc s =>
          if ToolType_eqb (stroke_tool s) LASER then
            if Qgtb laserOpacity 0
            then renderStroke s (Some laserOpacity) acc
            else acc
          else renderStroke s None acc)
       (strokes (slide P)) c) ;;
  match currentStroke st with
  | Some s => renderStroke s None
  | None => skip
  end.

Definition redraw (P : Props) (st : State) (sf : Surfaces) (now : Z)
    : RedrawResult :=
  match canvasRef sf with
  | None => mkRedrawResult sf [] None
  | Some canvas =>
    match context2d canvas with
    | None => mkRedrawResult sf [] None
    | Some ctx =>
      let w := canvas_width canvas in
      let h := canvas_height canvas in
      let ctx := drawBackground P st sf w h ctx in
      let memCanvas :=
        match memCanvasRef sf with Some m => m | None => createCanvas end in
      let memCanvas :=
        if negb (Qeq_bool (canvas_width memCanvas) w)
           || negb (Qeq_bool (canvas_height memCanvas) h)
        then resizeCanvas memCanvas w h else memCanvas in
      match context2d memCanvas with
      | None =>
          mkRedrawResult
            (mkSurfaces (Some (with_context canvas ctx)) (Some memCanvas)
                        (videoRef sf))
            [] None
      | Some memCtx =>
        let memCtx :=
          clearRect 0 0 (canvas_width memCanvas) (canvas_height memCanvas)
                    memCtx in
        let isDrawingLaser := isDrawingLaser st in
        let '(laserOpacity, hasLaser) :=
          laserDecay isDrawingLaser now (lastActive st) in
        let memCtx := drawInk P st laserOpacity memCtx in
        let ctx :=
          (set_globalAlpha 1 ;;
           set_globalCompositeOperation "source-over" ;;
           drawImage (CanvasBitmap (painted memCtx)) 0 0 None) ctx in
        let existingLasers := existsb isLaser (strokes (slide P)) in
        let timeouts :=
          if existingLasers && Qle_bool laserOpacity 0 && negb isDrawingLaser
          then [slide P] else [] in
        mkRedrawResult
          (mkSurfaces (Some (with_context canvas ctx))
                      (Some (with_context memCanvas memCtx))
                      (videoRef sf))
          timeouts
          (Some (isDrawing st
                 || (existingLasers && Qgtb laserOpacity 0)
                 || isSome (screenStream P)))
      end
    end
  end.

(** The body of [loop] (lines 372-380) while [isAnimating] holds: the
    result of [redraw], and whether another frame was requested (what
    [animationFrameRef.current] is left non-null for). *)
Definition loop (P : Props) (st : State) (sf : Surfaces) (now : Z)
    : RedrawResult * bool :=
  let r := redraw P st sf now in
  let shouldContinue := r_return r in
  match shouldContinue with
  | Some true => (r, true)
  | _ => (r, false)
  end.

End Compositor.

(* ================================================================== *)
(** * The pointer handlers *)
(* ================================================================== *)

(** What a handler reads from its event: the position
    [updateCursorPosition] computes ([None] when the container is not
    mounted) and the point [getCoords(e)] returns. *)
Record PointerInput : Type := mkPointerInput {
  ev_cursor : option (Q * Q);
  ev_coords : Point
}.

Definition updateCursorPosition (e : PointerInput) (st : State) : State :=
  match ev_cursor e with
  | Some c => mkState (isDrawing st) (currentStroke st) (backgroundImage st)
                      c (lastActive st)
  | None => st
  end.

(** [laserState.current.lastActive = Date.now()] when the selected tool is
    the laser. *)
Definition touchLaser (P : Props) (now : Z) (la : Z) : Z :=
  if ToolType_eqb (tool P) LASER then now else la.

Definition startDrawing (P : Props) (e : PointerInput) (uuid : string)
    (now : Z) (st : State) : State :=
  let st := updateCursorPosition e st in
  let p := ev_coords e in
  let newStroke :=
    mkStroke uuid (tool P) [p]
      (if ToolType_eqb (tool P) ERASER then "#000000"%string else color P)
      (if ToolType_eqb (tool P) ERASER then (width P * 5)%Q else width P)
      None in
  mkState true (Some newStroke) (backgroundImage st) (cursorPos st)
          (touchLaser P now (lastActive st)).

(** [[RECTANGLE, CIRCLE, ARROW].includes(tool)] *)
Definition isShapeTool (t : ToolType) : bool :=
  existsb (ToolType_eqb t) [RECTANGLE; CIRCLE; ARROW].

Definition draw (P : Props) (e : PointerInput) (now : Z) (st : State) : State :=
  let st := updateCursorPosition e st in
  if negb (isDrawing st) || negb (isSome (currentStroke st)) then st
  else
    let p := ev_coords e in
    let next :=
      if isShapeTool (tool P) then
        option_map (fun prev => with_points prev [at_index (points prev) 0; p])
                   (currentStroke st)
      else
        option_map (fun prev => with_points prev (points prev ++ [p]))
                   (currentStroke st) in
    mkState (isDrawing st) next (backgroundImage st) (cursorPos st)
            (touchLaser P now (lastActive st)).

(** [stopDrawing]: the new state and the calls of [onUpdateSlide] made. *)
Definition stopDrawing (P : Props) (now : Z) (st : State) : State * list Update :=
  match isDrawing st, currentStroke st with
  | true, Some cs =>
      (mkState false None (backgroundImage st) (cursorPos st)
               (touchLaser P now (lastActive st)),
       [(slide_id (slide P), strokes (slide P) ++ [cs])])
  | _, _ => (st, [])
  end.

(* ================================================================== *)
(** * The whiteboard in its host: events and their effect *)
(* ================================================================== *)

(** The mounted component annotating one slide: its props, state and refs,
    the [setTimeout] callbacks still pending (each the slide its closure
    captured), the calls of the [onUpdateSlide] prop made so far, and
    whether the animation loop has a frame requested. *)
Record World : Type := mkWorld {
  props : Props;
  state : State;
  surfaces : Surfaces;
  timers : list Slide;
  calls : list Update;
  frameRequested : bool
}.

(** [updateSlideStrokes] of [App.tsx] on the slide on show:
    [s.id === slideId ? { ...s, strokes } : s]. *)
Definition updateSlideStrokes (s : Slide) (u : Update) : Slide :=
  if String.eqb (slide_id s) (fst u) then with_strokes s (snd u) else s.

Definition with_slide (P : Props) (s : Slide) : Props :=
  mkProps s (tool P) (color P) (width P) (screenStream P).

(** The host applies the calls and hands the new slide back as a prop. *)
Definition onUpdateSlide (us : list Update) (w : World) : World :=
  mkWorld (with_slide (props w) (fold_left updateSlideStrokes us (slide (props w))))
          (state w) (surfaces w) (timers w) (calls w ++ us) (frameRequested w).

Inductive Event : Type :=
| PointerDown (e : PointerInput) (uuid : string) (now : Z)
    (** [onMouseDown], [onTouchStart] *)
| PointerMove (e : PointerInput) (now : Z)
    (** [onMouseMove], [onTouchMove] *)
| PointerUp (now : Z)
    (** [onMouseUp], [onMouseLeave], [onTouchEnd] *)
| AnimationFrame (now : Z)
    (** one run of [loop] *)
| TimeoutFires
    (** the oldest pending [setTimeout] callback runs *)
| SelectTool (t : ToolType)
| SelectColor (c : string)
| SelectWidth (v : Q)
| SetScreenStream (s : option MediaStream)
| ClearSlide.
    (** [handleClearSlide] of [App.tsx] *)

Section Host.
Context {M : JsMath}.

Definition step (w : World) (ev : Event) : World :=
  match ev with
  | PointerDown e uuid now =>
      mkWorld (props w) (startDrawing (props w) e uuid now (state w))
              (surfaces w) (timers w) (calls w) (frameRequested w)
  | PointerMove e now =>
      mkWorld (props w) (draw (props w) e now (state w))
              (surfaces w) (timers w) (calls w) (frameRequested w)
  | PointerUp now =>
      let '(st, us) := stopDrawing (props w) now (state w) in
      onUpdateSlide us
        (mkWorld (props w) st (surfaces w) (timers w) (calls w)
                 (frameRequested w))
  | AnimationFrame now =>
      let '(r, again) := loop (props w) (state w) (surfaces w) now in
      mkWorld (props w) (state w) (r_surfaces r) (timers w ++ r_timeouts r)
              (calls w) again
  | TimeoutFires =>
      match timers w with
      | [] => w
      | captured :: rest =>
          onUpdateSlide (laserCleanup captured)
            (mkWorld (props w) (state w) (surfaces w) rest (calls w)
                     (frameRequested w))
      end
  | SelectTool t =>
      mkWorld (mkProps (slide (props w)) t (color (props w)) (width (props w))
                       (screenStream (props w)))
              (state w) (surfaces w) (timers w) (calls w) (frameRequested w)
  | SelectColor c =>
      mkWorld (mkProps (slide (props w)) (tool (props w)) c (width (props w))
                       (screenStream (props w)))
              (state w) (surfaces w) (timers w) (calls w) (frameRequested w)
  | SelectWidth v =>
      mkWorld (mkProps (slide (props w)) (tool (props w)) (color (props w)) v
                       (screenStream (props w)))
              (state w) (surfaces w) (timers w) (calls w) (frameRequested w)
  | SetScreenStream s =>
      mkWorld (mkProps (slide (props w)) (tool (props w)) (color (props w))
                       (width (props w)) s)
              (state w) (surfaces w) (timers w) (calls w) (frameRequested w)
  | ClearSlide =>
      mkWorld (with_slide (props w)
                 (updateSlideStrokes (slide (props w))
                                     (slide_id (slide (props w)), [])))
              (state w) (surfaces w) (timers w) (calls w) (frameRequested w)
  end.

Definition run (w : World) (evs : list Event) : World := fold_left step evs w.

End Host.

(** A rational stand-in for the [Math] object, for evaluating examples:
    Newton steps for the square root, truncated series for the circular
    functions. *)
Definition approx_sqrt (x : Q) : Q :=
  if Qle_bool x 0 then 0%Q
  else
    let next := fun g : Q => Qred ((g + x / g) / 2)%Q in
    next (next (next (next (next (Qred ((x + 1) / 2)%Q))))).
Definition approx_sin (x : Q) : Q :=
  Qred (x - x * x * x / 6 + x * x * x * x * x / 120)%Q.
Definition approx_cos (x : Q) : Q :=
  Qred (1 - x * x / 2 + x * x * x * x / 24)%Q.
Definition approx_atan2 (y x : Q) : Q :=
  if Qle_bool x 0 then 0%Q
  else let r := (y / x)%Q in Qred (r - r * r * r / 3)%Q.

Definition approxMath : JsMath := {|
  Math_sqrt := approx_sqrt;
  Math_pow := fun b e => if Qeq_bool e 2 then (b * b)%Q else 1%Q;
  Math_atan2 := approx_atan2;
  Math_cos := approx_cos;
  Math_sin := approx_sin;
  Math_PI := (355 # 113)%Q
|}.

(* ================================================================== *)
(** * Vocabulary of the properties *)
(* ================================================================== *)

(** The coordinates of a point, without its timestamp. *)
Definition xy (p : Point) : Q * Q := (px p, py p).

Definition first_point (l : list Point) : option Point := hd_error l.
Definition last_point (l : list Point) : option Point := hd_error (rev l).

(** [redraw] gets as far as painting: the canvas is mounted and both
    canvases hand out a 2D context. *)
Definition surfaceReady (sf : Surfaces) : bool :=
  match canvasRef sf with
  | Some canvas =>
      isSome (context2d canvas) &&
      match memCanvasRef sf with
      | Some m => isSome (context2d m)
      | None => true
      end
  | None => false
  end.

(** The style a paint operation was issued with. *)
Definition paint_style (p : Paint) : option Style :=
  match p with
  | Stroked st _ | Filled st _ | StrokedRect st _ _ _ _
  | FilledRect st _ _ _ _ | DrewImage st _ _ _ _ => Some st
  | ClearedRect _ _ _ _ => None
  end.

(** A freshly loaded slide on a whiteboard at rest. *)
Definition atRest (w : World) : Prop :=
  strokes (slide (props w)) = [] /\
  isDrawing (state w) = false /\
  currentStroke (state w) = None /\
  timers w = [] /\
  calls w = [].

(** Every stroke that is persisted, in progress, held by a pending
    clean-up closure or passed to [onUpdateSlide] has at least one point. *)
Definition pointed (s : Stroke) : Prop := (1 <= List.length (points s))%nat.

Definition wellPointed (w : World) : Prop :=
  Forall pointed (strokes (slide (props w))) /\
  (forall cs, currentStroke (state w) = Some cs -> pointed cs) /\
  Forall (fun captured => Forall pointed (strokes captured)) (timers w) /\
  Forall (fun u : Update => Forall pointed (snd u)) (calls w).

(** The style a laser stroke's segment starting at index [i] is stroked
    with, on a context whose fill style was [f]. *)
Definition laserSegmentStyle (s : Stroke) (life : Q) (f : string) (i : nat)
    : Style :=
  mkStyle (Math_max 1 (stroke_width s * taperFactor i (List.length (points s))))
          "round" "round" 15 (stroke_color s) "source-over" life
          (stroke_color s) f.

Definition laserSegment (s : Stroke) (life : Q) (f : string) (i : nat) : Paint :=
  Stroked (laserSegmentStyle s life f i)
          [MoveTo (px (at_index (points s) i)) (py (at_index (points s) i));
           LineTo (px (at_index (points s) (i + 1)))
                  (py (at_index (points s) (i + 1)))].

(** The style an eraser stroke is stroked with, on a context whose shadow
    colour and fill style were [sc] and [f]. *)
Definition eraserStyle (s : Stroke) (sc f : string) : Style :=
  mkStyle (stroke_width s) "round" "round" 0 sc "destination-out" 1
          "rgba(0,0,0,1)" f.

(** Calls that only extend the current path. *)
Definition pathOnly (d : Draw) : Prop :=
  forall c, style (d c) = style c /\ painted (d c) = painted c.

(** The style of a context inside the laser branch, apart from the line
    width and stroke style each segment sets for itself. *)
Definition laserStyled (s : Stroke) (life : Q) (f : string) (sty : Style)
    : Prop :=
  lineCap sty = "round"%string /\ lineJoin sty = "round"%string /\
  shadowBlur sty = 15%Q /\ shadowColor sty = stroke_color s /\
  globalCompositeOperation sty = "source-over"%string /\
  globalAlpha sty = life /\ fillStyle sty = f.

(* ================================================================== *)
(** * Further parts of the component and of its host *)
(* ================================================================== *)

From Stdlib Require Import Ascii DecimalString DecimalNat.

(** ** Pointer coordinates ([getCoords], [updateCursorPosition]) *)

(** [getBoundingClientRect()] *)
Record DOMRect : Type := mkDOMRect {
  rect_left : Q;
  rect_top : Q;
  rect_width : Q;
  rect_height : Q
}.

(** [React.MouseEvent | React.TouchEvent], as far as the handlers read
    it: the client position, or the client positions of the touches. *)
Inductive PointerEvt : Type :=
| MouseEvt (clientX clientY : Q)
| TouchEvt (touches : list (Q * Q)).

(** Lines 101-108 and 118-125: [clientX, clientY] of the event;
    [e.touches[0].clientX] on an empty touch list throws ([None]). *)
Definition clientXY (e : PointerEvt) : option (Q * Q) :=
  match e with
  | MouseEvt x y => Some (x, y)
  | TouchEvt ts => hd_error ts
  end.

(** [getCoords(e)], given [canvasRef.current] with its bounding rectangle
    and the reading of [Date.now()]; [None] when it throws.  A rectangle
    of width or height 0 makes the scale infinite or undefined in
    JavaScript and is outside what [Q] represents. *)
Definition getCoords (canvas : option (Canvas * DOMRect)) (e : PointerEvt)
    (now : Z) : option Point :=
  match canvas with
  | None => Some (mkPoint 0 0 None)
  | Some (cv, rect) =>
      let scaleX := (canvas_width cv / rect_width rect)%Q in
      let scaleY := (canvas_height cv / rect_height rect)%Q in
      match clientXY e with
      | None => None
      | Some (cx, cy) =>
          Some (mkPoint ((cx - rect_left rect) * scaleX)%Q
                        ((cy - rect_top rect) * scaleY)%Q
                        (Some now))
      end
  end.

(** The position [updateCursorPosition(e)] hands to [setCursorPos], given
    the bounding rectangle of [containerRef.current]: outer [None] when
    reading the event throws, inner [None] when the container is absent. *)
Definition cursorFromEvent (container : option DOMRect) (e : PointerEvt)
    : option (option (Q * Q)) :=
  match clientXY e with
  | None => None
  | Some (cx, cy) =>
      Some (option_map
              (fun rect => ((cx - rect_left rect)%Q, (cy - rect_top rect)%Q))
              container)
  end.

(** What [startDrawing] and [draw] read from a raw event, in the order
    they read it: [updateCursorPosition(e)], then [getCoords(e)]. *)
Definition readPointer (container : option DOMRect)
    (canvas : option (Canvas * DOMRect)) (e : PointerEvt) (now : Z)
    : option PointerInput :=
  match cursorFromEvent container e with
  | None => None
  | Some cur =>
      match getCoords canvas e now with
      | None => None
      | Some p => Some (mkPointerInput cur p)
      end
  end.

(** ** The constants module *)

Definition TOOLS : list ToolType :=
  [PEN; HIGHLIGHTER; LASER; ERASER; RECTANGLE; CIRCLE; ARROW].

Definition COLORS : list string :=
  ["#000000"; "#EF4444"; "#3B82F6"; "#10B981"; "#F59E0B"; "#8B5CF6";
   "#FFFFFF"]%string.

Definition STROKE_WIDTHS : list Q := [2; 4; 8; 12; 20]%Q.

(** ** The host application ([App.tsx]) *)

Module App.

(** [Project] of the [types] module. *)
Record Project : Type := mkProject {
  project_id : string;
  project_name : string;
  lastModified : Z;
  slides : list Slide
}.

(** The fields of [AppState] that project, slide and tool handling read
    and write. *)
Record AppState : Type := mkAppState {
  currentProject : option Project;
  currentSlideIndex : nat;
  tool : ToolType;
  strokeColor : string;
  strokeWidth : Q
}.

(** The [useState] initial value (lines 41-46). *)
Definition initialState : AppState :=
  mkAppState None 0 PEN "#000000" 4.

(** [{ ...s.currentProject, slides }] *)
Definition with_slides (p : Project) (l : list Slide) : Project :=
  mkProject (project_id p) (project_name p) (lastModified p) l.

Definition with_project (s : AppState) (p : option Project) : AppState :=
  mkAppState p (currentSlideIndex s) (tool s) (strokeColor s) (strokeWidth s).

Definition with_index (s : AppState) (i : nat) : AppState :=
  mkAppState (currentProject s) i (tool s) (strokeColor s) (strokeWidth s).

Definition startProject (project : Project) (s : AppState) : AppState :=
  mkAppState (Some project) 0 (tool s) (strokeColor s) (strokeWidth s).

(** Lines 247-258. *)
Definition updateSlideStrokes (slideId : string) (strokes : list Stroke)
    (s : AppState) : AppState :=
  match currentProject s with
  | None => s
  | Some p =>
      let updatedSlides :=
        map (fun sl =>
               if String.eqb (slide_id sl) slideId
               then with_strokes sl strokes else sl)
            (slides p) in
      with_project s (Some (with_slides p updatedSlides))
  end.

(** [appState.currentProject.slides[appState.currentSlideIndex]] *)
Definition currentSlide (s : AppState) : option Slide :=
  match currentProject s with
  | None => None
  | Some p => nth_error (slides p) (currentSlideIndex s)
  end.

(** Lines 260-264; [None] when reading [.id] of a missing slide throws. *)
Definition handleClearSlide (s : AppState) : option AppState :=
  match currentProject s with
  | None => Some s
  | Some p =>
      match nth_error (slides p) (currentSlideIndex s) with
      | None => None
      | Some sl => Some (updateSlideStrokes (slide_id sl) [] s)
      end
  end.

(** Lines 266-271. *)
Definition nextSlide (s : AppState) : AppState :=
  match currentProject s with
  | None => s
  | Some p =>
      if (Z.of_nat (currentSlideIndex s)
          <? Z.of_nat (List.length (slides p)) - 1)%Z
      then with_index s (currentSlideIndex s + 1)
      else s
  end.

(** Lines 273-277. *)
Definition prevSlide (s : AppState) : AppState :=
  if (0 <? Z.of_nat (currentSlideIndex s))%Z
  then with_index s (currentSlideIndex s - 1)
  else s.

(** [n.toString()] for a non-negative integer. *)
Definition toString (n : nat) : string :=
  NilZero.string_of_uint (Nat.to_uint n).

Fixpoint repeatChar (c : ascii) (n : nat) : string :=
  match n with
  | O => EmptyString
  | S k => String c (repeatChar c k)
  end.

(** [s.padStart(targetLength, c)] for a one-character pad string. *)
Definition padStart (targetLength : nat) (c : ascii) (s : string) : string :=
  (repeatChar c (targetLength - String.length s) ++ s)%string.

(** Lines 377-381, on a whole number of seconds. *)
Definition formatTime (seconds : nat) : string :=
  let mins := (seconds / 60)%nat in
  let secs := (seconds mod 60)%nat in
  (toString mins ++ ":" ++ padStart 2 "0" (toString secs))%string.

(** [s.includes(sub)] *)
Fixpoint includes (s sub : string) : bool :=
  String.prefix sub s ||
  match s with
  | EmptyString => false
  | String _ rest => includes rest sub
  end.

(** Lines 305-313 of [startRecording], given
    [MediaRecorder.isTypeSupported]. *)
Definition chooseMimeType (isTypeSupported : string -> bool) : string :=
  (if isTypeSupported "video/mp4" then "video/mp4"
   else if isTypeSupported "video/webm;codecs=h264"
   then "video/webm;codecs=h264"
   else if isTypeSupported "video/webm;codecs=vp9"
   then "video/webm;codecs=vp9"
   else "video/webm")%string.

(** Lines 388 and 401: the extension of the saved file. *)
Definition fileExtension (recordingMimeType : string) : string :=
  (if includes recordingMimeType "mp4" then "mp4" else "webm")%string.

(** Line 389: [`${videoFilename}.${ext}`]. *)
Definition downloadName (videoFilename recordingMimeType : string) : string :=
  (videoFilename ++ "." ++ fileExtension recordingMimeType)%string.

End App.

(** ** Vocabulary of the further properties *)

(** Where a path command ends. *)
Definition cmd_end (cmd : PathCmd) : Q * Q :=
  match cmd with
  | MoveTo x y | LineTo x y | QuadraticCurveTo _ _ x y => (x, y)
  | Arc x y _ _ _ => (x, y)
  end.

Definition notLaser (s : Stroke) : bool := negb (isLaser s).

(** Splitting at the first colon, and reading [M:SS] back. *)
Fixpoint splitColon (s : string) : option (string * string) :=
  match s with
  | EmptyString => None
  | String c rest =>
      if Ascii.eqb c ":" then Some (EmptyString, rest)
      else match splitColon rest with
           | Some (a, b) => Some (String c a, b)
           | None => None
           end
  end.

Definition readDecimal (s : string) : option nat :=
  option_map Nat.of_uint (NilZero.uint_of_string s).

Definition parseTime (s : string) : option nat :=
  match splitColon s with
  | None => None
  | Some (m, ss) =>
      match readDecimal m, readDecimal ss with
      | Some mins, Some secs => Some (mins * 60 + secs)%nat
      | _, _ => None
      end
  end.

(** A pointer move as an event. *)
Definition moveEvent (m : PointerInput * Z) : Event :=
  PointerMove (fst m) (snd m).

(** Two call sequences with the same effect on every context. *)
Definition sameDraw (a b : Draw) : Prop := forall c, a c = b c.

(** The path commands of the freehand branch, as a list. *)
Definition freehandCmds (l : list Point) : list PathCmd :=
  let n := List.length l in
  MoveTo (px (at_index l 0)) (py (at_index l 0))
  :: (if (2 <? n)%nat then
        map (fun i =>
               QuadraticCurveTo
                 (px (at_index l i)) (py (at_index l i))
                 ((px (at_index l i) + px (at_index l (i + 1))) / 2)
                 ((py (at_index l i) + py (at_index l (i + 1))) / 2))
            (seq 1 (n - 2 - 1))
        ++ [QuadraticCurveTo
              (px (at_index l (n - 2))) (py (at_index l (n - 2)))
              (px (at_index l (n - 1))) (py (at_index l (n - 1)))]
      else
        map (fun i => LineTo (px (at_index l i)) (py (at_index l i)))
            (seq 1 (n - 1))).

(** Lines 280-287 of [redraw]: the offscreen canvas, created if there is
    none and sized to the visible canvas. *)
Definition preparedMemCanvas (sf : Surfaces) (canvas : Canvas) : Canvas :=
  let memCanvas :=
    match memCanvasRef sf with Some m => m | None => createCanvas end in
  if negb (Qeq_bool (canvas_width memCanvas) (canvas_width canvas))
     || negb (Qeq_bool (canvas_height memCanvas) (canvas_height canvas))
  then resizeCanvas memCanvas (canvas_width canvas) (canvas_height canvas)
  else memCanvas.

(** The slide index points at a slide of the open project. *)
Definition indexInRange (s : App.AppState) : Prop :=
  match App.currentProject s with
  | Some p => (App.currentSlideIndex s < List.length (App.slides p))%nat
  | None => True
  end.

Fixpoint noColon (s : string) : bool :=
  match s with
  | EmptyString => true
  | String c rest => negb (Ascii.eqb c ":") && noColon rest
  end.

(** The seconds field of [formatTime] for [k]: two characters that read
    back as [k]. *)
Definition secondsFieldOk (k : nat) : bool :=
  (String.length (App.padStart 2 "0" (App.toString k)) =? 2)%nat &&
  match readDecimal (App.padStart 2 "0" (App.toString k)) with
  | Some k' => (k' =? k)%nat
  | None => false
  end.

(* ================================================================== *)
(** * Laser decay *)
(* ================================================================== *)

Lemma laserOpacity_hold (now la : Z) :
  now - la < LASER_HOLD_MS -> laserOpacity false now la = 1%Q.
Proof.
  intros H. unfold laserOpacity, laserDecay.
  destruct (Z.ltb_spec (now - la) LASER_HOLD_MS); [reflexivity | lia].
Qed.

Lemma laserOpacity_fade (now la : Z) :
  LASER_HOLD_MS <= now - la < LASER_HOLD_MS + LASER_FADE_MS ->
  laserOpacity false now la
  = (1 - inject_Z (now - la - LASER_HOLD_MS) / inject_Z LASER_FADE_MS)%Q.
Proof.
  intros H. unfold laserOpacity, laserDecay.
  destruct (Z.ltb_spec (now - la) LASER_HOLD_MS); [lia|].
  destruct (Z.ltb_spec (now - la) (LASER_HOLD_MS + LASER_FADE_MS));
    [reflexivity | lia].
Qed.

Lemma laserOpacity_idle (now la : Z) :
  LASER_HOLD_MS + LASER_FADE_MS <= now - la -> laserOpacity false now la = 0%Q.
Proof.
  intros H. unfold laserOpacity, laserDecay.
  destruct (Z.ltb_spec (now - la) LASER_HOLD_MS); [unfold LASER_HOLD_MS, LASER_FADE_MS in *; lia|].
  destruct (Z.ltb_spec (now - la) (LASER_HOLD_MS + LASER_FADE_MS));
    [lia | reflexivity].
Qed.

(** The fading value as one fraction over the fade window. *)
Lemma fade_value (k : Z) :
  (1 - inject_Z k / inject_Z LASER_FADE_MS == inject_Z (1000 - k) / 1000)%Q.
Proof.
  unfold LASER_FADE_MS. unfold Zminus. rewrite inject_Z_plus, inject_Z_opp.
  change (inject_Z 1000) with 1000%Q. field.
Qed.

Lemma fade_value_lt (j k : Z) :
  j < k ->
  (1 - inject_Z k / inject_Z LASER_FADE_MS
   < 1 - inject_Z j / inject_Z LASER_FADE_MS)%Q.
Proof.
  intros H. rewrite !fade_value.
  apply Qmult_lt_r; [reflexivity|].
  rewrite <- Zlt_Qlt. lia.
Qed.

(** C1 (as stated, refuted): at the instant the hold window elapses,
    [t - lastActiveTimestamp = holdWindow], the time lies in the range the
    claim assigns to the fade, yet the life is exactly 1, not inside the open
    interval (0,1). *)
Lemma laser_life_at_hold_boundary :
  LASER_HOLD_MS <= 2000 - 0 < LASER_HOLD_MS + LASER_FADE_MS /\
  (laserOpacity false 2000 0 == 1)%Q /\
  ~ (0 < laserOpacity false 2000 0 < 1)%Q.
Proof.
  split; [unfold LASER_HOLD_MS, LASER_FADE_MS; lia|].
  split; [reflexivity|].
  intros [_ H]. vm_compute in H. discriminate H.
Qed.

(** C1 (amended): with no laser stroke being drawn, the life is 1 while
    [t - lastActive < LASER_HOLD_MS]; on
    [LASER_HOLD_MS <= t - lastActive < LASER_HOLD_MS + LASER_FADE_MS] it is
    [1 - (t - lastActive - LASER_HOLD_MS) / LASER_FADE_MS], which lies in
    (0,1], equals 1 only at the first instant of that range, and strictly
    decreases with [t]; from [LASER_HOLD_MS + LASER_FADE_MS] on it is 0.
    For a stroke finished at 0 the life is 1 at 1000, 1/2 at 2500 and 0 at
    3100. *)
Theorem laser_life_profile (now la : Z) :
  let d := now - la in
  (d < LASER_HOLD_MS -> (laserOpacity false now la == 1)%Q) /\
  (LASER_HOLD_MS <= d < LASER_HOLD_MS + LASER_FADE_MS ->
     (laserOpacity false now la
      == 1 - inject_Z (d - LASER_HOLD_MS) / inject_Z LASER_FADE_MS)%Q /\
     (0 < laserOpacity false now la <= 1)%Q /\
     ((laserOpacity false now la < 1)%Q <-> LASER_HOLD_MS < d) /\
     (forall later : Z,
        d < later - la < LASER_HOLD_MS + LASER_FADE_MS ->
        (laserOpacity false later la < laserOpacity false now la)%Q)) /\
  (LASER_HOLD_MS + LASER_FADE_MS <= d -> (laserOpacity false now la == 0)%Q) /\
  (laserOpacity false 1000 0 == 1)%Q /\
  (laserOpacity false 2500 0 == 1 # 2)%Q /\
  (laserOpacity false 3100 0 == 0)%Q.
Proof.
  intros d. subst d.
  split; [intros H; rewrite laserOpacity_hold by exact H; reflexivity|].
  split.
  - intros H. rewrite (laserOpacity_fade now la H).
    split; [reflexivity|].
    assert (Hk : 0 <= now - la - LASER_HOLD_MS < 1000)
      by (unfold LASER_FADE_MS in H; lia).
    set (k := now - la - LASER_HOLD_MS) in *.
    split; [|split].
    + rewrite fade_value. split.
      * apply Qlt_shift_div_l; [reflexivity|]. rewrite Qmult_0_l.
        change 0%Q with (inject_Z 0). rewrite <- Zlt_Qlt. lia.
      * apply Qle_shift_div_r; [reflexivity|]. rewrite Qmult_1_l.
        change 1000%Q with (inject_Z 1000). rewrite <- Zle_Qle. lia.
    + rewrite fade_value. split.
      * intros Hlt.
        destruct (Z.lt_ge_cases 0 k) as [Hpos | Hneg]; [lia|].
        exfalso. apply (Qlt_not_le _ _ Hlt).
        apply Qle_shift_div_l; [reflexivity|].
        rewrite Qmult_1_l. change 1000%Q with (inject_Z 1000).
        rewrite <- Zle_Qle. lia.
      * intros Hd. apply Qlt_shift_div_r; [reflexivity|].
        rewrite Qmult_1_l. change 1000%Q with (inject_Z 1000).
        rewrite <- Zlt_Qlt. lia.
    + intros later Hl.
      rewrite (laserOpacity_fade later la) by lia.
      apply fade_value_lt. lia.
  - split; [intros H; rewrite laserOpacity_idle by exact H; reflexivity|].
    repeat split.
Qed.

Lemma laser_life_profile_witness :
  (laserOpacity false 2500 0
   == 1 - inject_Z (2500 - 0 - LASER_HOLD_MS) / inject_Z LASER_FADE_MS)%Q.
Proof.
  apply (laser_life_profile 2500 0).
  unfold LASER_HOLD_MS, LASER_FADE_MS. lia.
Defined.

(* ================================================================== *)
(** * The gesture controller *)
(* ================================================================== *)

Section Controller.
Context {M : JsMath}.

Lemma updateSlideStrokes_same (s : Slide) (l : list Stroke) :
  updateSlideStrokes s (slide_id s, l) = with_strokes s l.
Proof. unfold updateSlideStrokes. cbn. rewrite String.eqb_refl. reflexivity. Qed.

Lemma stopDrawing_open (P : Props) (now : Z) (st : State) (cs : Stroke) :
  isDrawing st = true -> currentStroke st = Some cs ->
  stopDrawing P now st
  = (mkState false None (backgroundImage st) (cursorPos st)
             (touchLaser P now (lastActive st)),
     [(slide_id (slide P), strokes (slide P) ++ [cs])]).
Proof. intros H1 H2. unfold stopDrawing. rewrite H1, H2. reflexivity. Qed.

Lemma stopDrawing_closed (P : Props) (now : Z) (st : State) :
  isDrawing st = false \/ currentStroke st = None ->
  stopDrawing P now st = (st, []).
Proof.
  intros [H | H]; unfold stopDrawing; rewrite H;
    [reflexivity | destruct (isDrawing st); reflexivity].
Qed.

(** C2: with Pen, colour [#3B82F6] and width 4 selected, the gesture
    down at (0,0), moves to (10,0) and (10,10), release, commits through
    one call of [onUpdateSlide] a stroke with tool Pen, that colour and
    width and exactly the three points; the slide's list grows by that
    stroke, so an empty list has length 1 afterwards. *)
Theorem pen_gesture_commits_stroke
    (w : World) (e0 e1 e2 : PointerInput) (uuid : string) (t0 t1 t2 t3 : Z) :
  tool (props w) = PEN ->
  color (props w) = "#3B82F6"%string ->
  width (props w) = 4%Q ->
  xy (ev_coords e0) = (0, 0)%Q ->
  xy (ev_coords e1) = (10, 0)%Q ->
  xy (ev_coords e2) = (10, 10)%Q ->
  let w' := run w [PointerDown e0 uuid t0; PointerMove e1 t1;
                   PointerMove e2 t2; PointerUp t3] in
  exists s : Stroke,
    stroke_tool s = PEN /\
    stroke_color s = "#3B82F6"%string /\
    stroke_width s = 4%Q /\
    points s = [ev_coords e0; ev_coords e1; ev_coords e2] /\
    map xy (points s) = [(0, 0); (10, 0); (10, 10)]%Q /\
    calls w' = calls w ++ [(slide_id (slide (props w)),
                            strokes (slide (props w)) ++ [s])] /\
    strokes (slide (props w')) = strokes (slide (props w)) ++ [s] /\
    (strokes (slide (props w)) = [] ->
     List.length (strokes (slide (props w'))) = 1%nat) /\
    isDrawing (state w') = false /\
    currentStroke (state w') = None.
Proof.
  intros Ht Hc Hw H0 H1 H2 w'.
  exists (mkStroke uuid PEN [ev_coords e0; ev_coords e1; ev_coords e2]
                   "#3B82F6" 4 None).
  assert (Hrun : w' =
    onUpdateSlide
      [(slide_id (slide (props w)),
        strokes (slide (props w))
        ++ [mkStroke uuid PEN [ev_coords e0; ev_coords e1; ev_coords e2]
                     "#3B82F6" 4 None])]
      (mkWorld (props w)
         (mkState false None (backgroundImage (state w))
            (cursorPos (updateCursorPosition e2
               (updateCursorPosition e1
                  (updateCursorPosition e0 (state w)))))
            (lastActive (state w)))
         (surfaces w) (timers w) (calls w) (frameRequested w))).
  { subst w'. unfold run. cbn [fold_left step].
    unfold startDrawing, draw, stopDrawing, touchLaser, isShapeTool.
    cbn [props state]. rewrite Ht, Hc, Hw.
    destruct e0 as [[c0|] p0], e1 as [[c1|] p1], e2 as [[c2|] p2];
      reflexivity. }
  rewrite Hrun. cbn [onUpdateSlide calls props slide with_slide fold_left state
                     isDrawing currentStroke].
  rewrite updateSlideStrokes_same. cbn [with_strokes strokes].
  repeat split; try reflexivity.
  - cbn [points map]. rewrite H0, H1, H2. reflexivity.
  - intros He. rewrite He. reflexivity.
Qed.

Lemma onUpdateSlide_nil (w : World) : onUpdateSlide [] w = w.
Proof.
  destruct w as [[sl t c wd ss] st sf tm cl fr].
  unfold onUpdateSlide, with_slide. cbn. rewrite app_nil_r. reflexivity.
Qed.

Lemma pointer_up_closed (w : World) (now : Z) :
  isDrawing (state w) = false \/ currentStroke (state w) = None ->
  step w (PointerUp now) = w.
Proof.
  intros H. cbn [step].
  rewrite (stopDrawing_closed (props w) now (state w) H).
  rewrite onUpdateSlide_nil. destruct w; reflexivity.
Qed.

(** C10: gesture end with no gesture open does nothing: [stopDrawing]
    returns the state it was given and makes no call of [onUpdateSlide],
    and the whole whiteboard (persisted list, in-progress stroke, drawing
    flag, call log) is as before. *)
Theorem stopDrawing_without_gesture_noop (w : World) (now : Z) :
  isDrawing (state w) = false \/ currentStroke (state w) = None ->
  stopDrawing (props w) now (state w) = (state w, []) /\
  step w (PointerUp now) = w.
Proof.
  intros H. split.
  - apply stopDrawing_closed, H.
  - apply pointer_up_closed, H.
Qed.

(** A release that follows a release (the pointer left the canvas, then
    the button came up) changes nothing more. *)
Lemma pointer_up_twice (w : World) (t1 t2 : Z) :
  step (step w (PointerUp t1)) (PointerUp t2) = step w (PointerUp t1).
Proof.
  apply pointer_up_closed.
  cbn [step]. unfold stopDrawing.
  destruct (isDrawing (state w)) eqn:Hd; [|left; cbn; exact Hd].
  destruct (currentStroke (state w)) eqn:Hc; [left; reflexivity|].
  right. cbn. exact Hc.
Qed.

End Controller.

Lemma pen_gesture_commits_stroke_witness :
  exists s : Stroke,
    stroke_tool s = PEN /\
    points s = [mkPoint 0 0 (Some 1); mkPoint 10 0 (Some 2);
                mkPoint 10 10 (Some 3)].
Proof.
  destruct (pen_gesture_commits_stroke (M := approxMath)
    (mkWorld
       (mkProps (mkSlide "slide-1" "thumb" "full" [] EmptyString)
                PEN "#3B82F6" 4 None)
       (mkState false None None (0, 0)%Q 0)
       (mkSurfaces None None false) [] [] false)
    (mkPointerInput None (mkPoint 0 0 (Some 1)))
    (mkPointerInput None (mkPoint 10 0 (Some 2)))
    (mkPointerInput None (mkPoint 10 10 (Some 3)))
    "stroke-1" 1 2 3 4
    eq_refl eq_refl eq_refl eq_refl eq_refl eq_refl)
    as [s (Ht & _ & _ & Hp & _)].
  exists s. split; [exact Ht | exact Hp].
Defined.

Lemma stopDrawing_without_gesture_noop_witness :
  let w := mkWorld
             (mkProps (mkSlide "slide-1" "thumb" "full" [] EmptyString)
                      PEN "#000000" 4 None)
             (mkState false None None (0, 0)%Q 0)
             (mkSurfaces None None false) [] [] false in
  step (M := approxMath) w (PointerUp 5) = w.
Proof.
  intros w.
  apply (stopDrawing_without_gesture_noop (M := approxMath) w 5).
  left. reflexivity.
Defined.

(* ================================================================== *)
(** * Persisted strokes keep their points *)
(* ================================================================== *)

Section Persisted.
Context {M : JsMath}.

Lemma redraw_timeouts (P : Props) (st : State) (sf : Surfaces) (now : Z) :
  r_timeouts (redraw P st sf now) = [] \/
  r_timeouts (redraw P st sf now) = [slide P].
Proof.
  unfold redraw.
  destruct (canvasRef sf) as [canvas|]; [|left; reflexivity].
  destruct (context2d canvas) as [ctx|]; [|left; reflexivity].
  match goal with
  | |- context [match context2d ?m with _ => _ end] =>
      destruct (context2d m) as [memCtx|]; [|left; reflexivity]
  end.
  destruct (laserDecay (isDrawingLaser st) now (lastActive st)) as [op hl].
  cbn [r_timeouts].
  match goal with
  | |- context [if ?b then [slide P] else []] => destruct b
  end; [right | left]; reflexivity.
Qed.

Lemma redraw_state_free (P : Props) (st : State) (sf : Surfaces) (now : Z) :
  r_timeouts (fst (loop P st sf now)) = r_timeouts (redraw P st sf now).
Proof.
  unfold loop. destruct (r_return (redraw P st sf now)) as [[|]|]; reflexivity.
Qed.

Lemma pointed_filter (f : Stroke -> bool) (l : list Stroke) :
  Forall pointed l -> Forall pointed (filter f l).
Proof.
  intros H. apply Forall_forall. intros s Hs.
  apply filter_In in Hs. destruct Hs as [Hs _].
  rewrite Forall_forall in H. apply H, Hs.
Qed.

Lemma laserCleanup_pointed (captured : Slide) :
  Forall pointed (strokes captured) ->
  Forall (fun u : Update => Forall pointed (snd u)) (laserCleanup captured).
Proof.
  intros H. unfold laserCleanup.
  match goal with |- context [if ?b then _ else _] => destruct b end;
    [|constructor].
  constructor; [|constructor]. cbn. apply pointed_filter, H.
Qed.

Lemma updateSlideStrokes_pointed (s : Slide) (u : Update) :
  Forall pointed (strokes s) -> Forall pointed (snd u) ->
  Forall pointed (strokes (updateSlideStrokes s u)).
Proof.
  intros Hs Hu. unfold updateSlideStrokes.
  destruct (String.eqb (slide_id s) (fst u)); [exact Hu | exact Hs].
Qed.

Lemma fold_updates_pointed (us : list Update) (s : Slide) :
  Forall pointed (strokes s) ->
  Forall (fun u : Update => Forall pointed (snd u)) us ->
  Forall pointed (strokes (fold_left updateSlideStrokes us s)).
Proof.
  revert s. induction us as [|u us IH]; intros s Hs Hus; [exact Hs|].
  inversion Hus; subst. cbn [fold_left].
  apply IH; [apply updateSlideStrokes_pointed|]; assumption.
Qed.

Lemma onUpdateSlide_wellPointed (us : list Update) (w : World) :
  Forall (fun u : Update => Forall pointed (snd u)) us ->
  wellPointed w -> wellPointed (onUpdateSlide us w).
Proof.
  intros Hus (Hs & Hc & Ht & Hl). unfold wellPointed, onUpdateSlide. cbn.
  repeat split; try assumption.
  - apply fold_updates_pointed; assumption.
  - apply Forall_app. split; assumption.
Qed.

(** Gesture start seeds the stroke with one point. *)
Lemma startDrawing_seed (P : Props) (e : PointerInput) (uuid : string)
    (now : Z) (st : State) :
  exists s, currentStroke (startDrawing P e uuid now st) = Some s /\
            points s = [ev_coords e].
Proof. eexists. split; reflexivity. Qed.

(** A move leaves the stroke alone, appends the new point, or makes the
    list the first point and the new one. *)
Lemma draw_points (P : Props) (e : PointerInput) (now : Z) (st : State)
    (s' : Stroke) :
  currentStroke (draw P e now st) = Some s' ->
  exists s, currentStroke st = Some s /\
    (points s' = points s \/
     points s' = points s ++ [ev_coords e] \/
     points s' = [at_index (points s) 0; ev_coords e]).
Proof.
  unfold draw.
  assert (Hu : currentStroke (updateCursorPosition e st) = currentStroke st)
    by (unfold updateCursorPosition; destruct (ev_cursor e); reflexivity).
  destruct (negb (isDrawing (updateCursorPosition e st))
            || negb (isSome (currentStroke (updateCursorPosition e st)))).
  - rewrite Hu. intros H. exists s'. split; [exact H | left; reflexivity].
  - cbn [currentStroke]. rewrite Hu.
    destruct (currentStroke st) as [s|]; [|destruct (isShapeTool (tool P)); discriminate].
    destruct (isShapeTool (tool P)); cbn; intros H; inversion H; subst;
      exists s; (split; [reflexivity|]); cbn; auto.
Qed.

Lemma step_wellPointed (w : World) (ev : Event) :
  wellPointed w -> wellPointed (step w ev).
Proof.
  intros Hw. pose proof Hw as (Hs & Hc & Ht & Hl).
  destruct ev as [e uuid now | e now | now | now | | t | c | v | s |].
  - (* down *)
    unfold wellPointed. cbn. repeat split; try assumption.
    intros cs Hcs. inversion Hcs; subst. unfold pointed. cbn. lia.
  - (* move *)
    unfold wellPointed. cbn [step props state timers calls].
    repeat split; try assumption.
    intros cs Hcs. apply draw_points in Hcs.
    destruct Hcs as (s0 & Hs0 & Hp). specialize (Hc _ Hs0).
    unfold pointed in *.
    destruct Hp as [Hp | [Hp | Hp]]; rewrite Hp;
      [exact Hc | rewrite length_app; cbn; lia | cbn; lia].
  - (* up *)
    cbn [step]. unfold stopDrawing.
    destruct (isDrawing (state w)) eqn:Hd.
    + destruct (currentStroke (state w)) as [cs|] eqn:Hcs.
      * apply onUpdateSlide_wellPointed.
        -- constructor; [|constructor]. cbn.
           apply Forall_app. split; [exact Hs|].
           constructor; [apply Hc; reflexivity | constructor].
        -- unfold wellPointed. cbn. repeat split; try assumption.
           intros ? Hf. discriminate Hf.
      * rewrite onUpdateSlide_nil. destruct w; exact Hw.
    + rewrite onUpdateSlide_nil. destruct w; exact Hw.
  - (* frame *)
    cbn [step].
    pose proof (redraw_state_free (props w) (state w) (surfaces w) now) as E.
    destruct (loop (props w) (state w) (surfaces w) now) as [r again].
    cbn [fst] in E.
    unfold wellPointed. cbn. repeat split; try assumption.
    apply Forall_app. split; [exact Ht|]. rewrite E.
    destruct (redraw_timeouts (props w) (state w) (surfaces w) now) as [R | R];
      rewrite R; [constructor|].
    constructor; [exact Hs | constructor].
  - (* timeout *)
    cbn [step]. destruct (timers w) as [|captured rest] eqn:Htm; [exact Hw|].
    inversion Ht; subst.
    apply onUpdateSlide_wellPointed; [apply laserCleanup_pointed; assumption|].
    unfold wellPointed. cbn. repeat split; assumption.
  - unfold wellPointed. cbn. repeat split; assumption.
  - unfold wellPointed. cbn. repeat split; assumption.
  - unfold wellPointed. cbn. repeat split; assumption.
  - unfold wellPointed. cbn. repeat split; assumption.
  - (* clear *)
    unfold wellPointed. cbn [step props state timers calls with_slide slide].
    rewrite updateSlideStrokes_same. cbn. repeat split; try assumption.
    constructor.
Qed.

Lemma run_wellPointed (evs : list Event) (w : World) :
  wellPointed w -> wellPointed (run w evs).
Proof.
  revert w. induction evs as [|ev evs IH]; intros w Hw; [exact Hw|].
  cbn [run fold_left]. apply IH, step_wellPointed, Hw.
Qed.

Lemma atRest_wellPointed (w : World) : atRest w -> wellPointed w.
Proof.
  intros (Hs & _ & Hc & Ht & Hl). unfold wellPointed.
  rewrite Hs, Hc, Ht, Hl. repeat split; try constructor.
  intros cs H. discriminate H.
Qed.

(** C9: on a whiteboard started at rest on a freshly loaded slide, after
    any sequence of pointer events, animation frames, clean-up timeouts,
    tool, colour, width and stream changes and slide clears, every stroke
    of the persisted list has at least one point, and so has every stroke
    of every list handed to [onUpdateSlide]. *)
Theorem committed_strokes_have_points (w0 : World) (evs : list Event) :
  atRest w0 ->
  (forall s : Stroke,
     In s (strokes (slide (props (run w0 evs)))) ->
     (1 <= List.length (points s))%nat) /\
  (forall (u : Update) (s : Stroke),
     In u (calls (run w0 evs)) -> In s (snd u) ->
     (1 <= List.length (points s))%nat).
Proof.
  intros H0.
  destruct (run_wellPointed evs w0 (atRest_wellPointed w0 H0))
    as (Hs & _ & _ & Hl).
  split.
  - intros s Hin. rewrite Forall_forall in Hs. apply Hs, Hin.
  - intros u s Hu Hin. rewrite Forall_forall in Hl.
    specialize (Hl u Hu). rewrite Forall_forall in Hl. apply Hl, Hin.
Qed.

End Persisted.

Lemma committed_strokes_have_points_witness :
  let w0 := mkWorld
              (mkProps (mkSlide "slide-1" "thumb" "full" [] EmptyString)
                       RECTANGLE "#EF4444" 4 None)
              (mkState false None None (0, 0)%Q 0)
              (mkSurfaces None None false) [] [] false in
  let evs := [PointerDown (mkPointerInput None (mkPoint 1 1 (Some 1))) "a" 1;
              PointerMove (mkPointerInput None (mkPoint 5 2 (Some 2))) 2;
              AnimationFrame 3;
              PointerMove (mkPointerInput None (mkPoint 9 7 (Some 4))) 4;
              PointerUp 5] in
  atRest w0 /\
  List.length (strokes (slide (props (run (M := approxMath) w0 evs)))) = 1%nat /\
  forall s : Stroke,
    In s (strokes (slide (props (run (M := approxMath) w0 evs)))) ->
    (1 <= List.length (points s))%nat.
Proof.
  intros w0 evs.
  assert (H0 : atRest w0) by (repeat split; reflexivity).
  split; [exact H0|]. split; [reflexivity|].
  apply (committed_strokes_have_points (M := approxMath) w0 evs H0).
Defined.

(* ================================================================== *)
(** * The compositor: continuation and laser clean-up *)
(* ================================================================== *)

Lemma ToolType_eqb_eq (a b : ToolType) : ToolType_eqb a b = true <-> a = b.
Proof. destruct a, b; cbn; split; intros H; congruence. Qed.

Lemma Qgtb_lt (a b : Q) : Qgtb a b = true <-> (b < a)%Q.
Proof.
  unfold Qgtb. rewrite negb_true_iff. split.
  - intros H. apply Qnot_le_lt. intros Hle.
    apply Qle_bool_iff in Hle. congruence.
  - intros H. destruct (Qle_bool a b) eqn:E; [|reflexivity].
    apply Qle_bool_iff in E. exfalso. exact (Qlt_not_le _ _ H E).
Qed.

Lemma existsb_isLaser (l : list Stroke) :
  existsb isLaser l = true <->
  exists s, In s l /\ stroke_tool s = LASER.
Proof.
  rewrite existsb_exists. unfold isLaser.
  split; intros (s & Hin & H); exists s; (split; [exact Hin|]);
    apply ToolType_eqb_eq; exact H.
Qed.

Lemma laserDecay_opacity (b : bool) (now la : Z) :
  laserDecay b now la = (laserOpacity b now la, snd (laserDecay b now la)).
Proof. unfold laserOpacity. destruct (laserDecay b now la); reflexivity. Qed.

Section CompositorFacts.
Context {M : JsMath}.

(** What [redraw] schedules and returns once it gets to paint. *)
Lemma redraw_ready (P : Props) (st : State) (sf : Surfaces) (now : Z) :
  surfaceReady sf = true ->
  let life := laserOpacity (isDrawingLaser st) now (lastActive st) in
  let existingLasers := existsb isLaser (strokes (slide P)) in
  r_timeouts (redraw P st sf now)
  = (if existingLasers && Qle_bool life 0 && negb (isDrawingLaser st)
     then [slide P] else []) /\
  r_return (redraw P st sf now)
  = Some (isDrawing st || (existingLasers && Qgtb life 0)
          || isSome (screenStream P)).
Proof.
  unfold surfaceReady, redraw. intros H.
  destruct (canvasRef sf) as [canvas|]; [|discriminate].
  destruct (context2d canvas) as [ctx|]; [|discriminate].
  cbn [isSome andb] in H.
  assert (Hm : exists memCtx,
    context2d
      (if negb (Qeq_bool
                  (canvas_width
                     match memCanvasRef sf with
                     | Some m => m | None => createCanvas end)
                  (canvas_width canvas))
          || negb (Qeq_bool
                     (canvas_height
                        match memCanvasRef sf with
                        | Some m => m | None => createCanvas end)
                     (canvas_height canvas))
       then resizeCanvas
              match memCanvasRef sf with
              | Some m => m | None => createCanvas end
              (canvas_width canvas) (canvas_height canvas)
       else match memCanvasRef sf with
            | Some m => m | None => createCanvas end)
    = Some memCtx).
  { destruct (memCanvasRef sf) as [m|].
    - destruct (context2d m) as [mc|] eqn:Em; [|discriminate].
      match goal with |- context [if ?b then _ else _] => destruct b end;
        cbn; rewrite ?Em; eexists; reflexivity.
    - match goal with |- context [if ?b then _ else _] => destruct b end;
        cbn; eexists; reflexivity. }
  destruct Hm as [memCtx Hm]. rewrite Hm.
  rewrite laserDecay_opacity. cbn. split; reflexivity.
Qed.

(** Without a surface to paint on, [redraw] returns at once. *)
Lemma redraw_not_ready (P : Props) (st : State) (sf : Surfaces) (now : Z) :
  surfaceReady sf = false ->
  r_timeouts (redraw P st sf now) = [] /\
  r_return (redraw P st sf now) = None.
Proof.
  unfold surfaceReady, redraw. intros H.
  destruct (canvasRef sf) as [canvas|]; [|split; reflexivity].
  destruct (context2d canvas) as [ctx|]; [|split; reflexivity].
  cbn [isSome andb] in H.
  destruct (memCanvasRef sf) as [m|]; [|discriminate].
  destruct (context2d m) as [mc|] eqn:Em; [discriminate|].
  match goal with |- context [if ?b then _ else _] => destruct b end;
    cbn; rewrite ?Em; split; reflexivity.
Qed.

Lemma loop_requests (P : Props) (st : State) (sf : Surfaces) (now : Z) :
  fst (loop P st sf now) = redraw P st sf now /\
  (snd (loop P st sf now) = true <->
   r_return (redraw P st sf now) = Some true).
Proof.
  unfold loop. destruct (r_return (redraw P st sf now)) as [[|]|]; cbn;
    split; try reflexivity; split; intros H; congruence.
Qed.

(** C3 (amended): whenever [redraw] gets to paint (the canvas is mounted
    and both canvases hand out a 2D context) it returns true exactly when a
    gesture is in progress, or the slide holds a laser stroke and the laser
    life is above 0, or a screen stream is attached, and false in every
    other such state; when the canvas or a context is missing it returns at
    its guard without a value; and [loop] requests a further frame exactly
    when [redraw] got to paint and one of the three conditions holds. *)
Theorem redraw_continues_iff (P : Props) (st : State) (sf : Surfaces) (now : Z) :
  let life := laserOpacity (isDrawingLaser st) now (lastActive st) in
  let needed :=
    isDrawing st = true \/
    ((exists s, In s (strokes (slide P)) /\ stroke_tool s = LASER) /\
     (0 < life)%Q) \/
    screenStream P <> None in
  (surfaceReady sf = true ->
   (r_return (redraw P st sf now) = Some true <-> needed) /\
   (~ needed -> r_return (redraw P st sf now) = Some false)) /\
  (surfaceReady sf = false -> r_return (redraw P st sf now) = None) /\
  (snd (loop P st sf now) = true <-> surfaceReady sf = true /\ needed).
Proof.
  intros life needed.
  assert (Hiff : (isDrawing st
                  || (existsb isLaser (strokes (slide P)) && Qgtb life 0)
                  || isSome (screenStream P)) = true <-> needed).
  { unfold needed. rewrite !orb_true_iff, andb_true_iff.
    rewrite existsb_isLaser, Qgtb_lt.
    destruct (screenStream P); cbn; intuition congruence. }
  assert (Hready : surfaceReady sf = true ->
                   (r_return (redraw P st sf now) = Some true <-> needed) /\
                   (~ needed -> r_return (redraw P st sf now) = Some false)).
  { intros Hr. destruct (redraw_ready P st sf now Hr) as [_ Hret].
    fold life in Hret. rewrite Hret. split.
    - rewrite <- Hiff. split; intros H; congruence.
    - intros Hn. f_equal. apply not_true_is_false.
      intros Ht. apply Hn, Hiff, Ht. }
  split; [exact Hready|].
  split; [intros Hr; apply redraw_not_ready, Hr|].
  destruct (loop_requests P st sf now) as [_ Hloop]. rewrite Hloop.
  destruct (surfaceReady sf) eqn:Hr.
  - destruct (Hready eq_refl) as [H1 _]. rewrite H1. intuition.
  - destruct (redraw_not_ready P st sf now Hr) as [_ Hnone]. rewrite Hnone.
    split; [intros H; discriminate H | intros [H _]; discriminate H].
Qed.

Lemma filter_all_true {A} (f : A -> bool) (l : list A) :
  (forall x, In x l -> f x = true) -> filter f l = l.
Proof.
  induction l as [|a l IH]; intros H; [reflexivity|].
  cbn. rewrite (H a (or_introl eq_refl)). f_equal.
  apply IH. intros x Hx. apply H. right. exact Hx.
Qed.

Lemma no_laser_existsb (l : list Stroke) :
  (forall s, In s l -> stroke_tool s <> LASER) -> existsb isLaser l = false.
Proof.
  intros H. apply not_true_is_false. intros E.
  apply existsb_isLaser in E. destruct E as (s & Hin & Ht).
  exact (H s Hin Ht).
Qed.

(** The clean-up callback makes no call on a list without laser strokes. *)
Lemma laserCleanup_no_laser (captured : Slide) :
  (forall s, In s (strokes captured) -> stroke_tool s <> LASER) ->
  laserCleanup captured = [].
Proof.
  intros H. unfold laserCleanup. rewrite filter_all_true.
  - rewrite Nat.eqb_refl. reflexivity.
  - intros s Hs. unfold isLaser. apply negb_true_iff.
    apply not_true_is_false. intros E. apply ToolType_eqb_eq in E.
    exact (H s Hs E).
Qed.

Lemma redraw_no_timeouts_when (P : Props) (st : State) (sf : Surfaces) (now : Z) :
  existsb isLaser (strokes (slide P)) = false \/ isDrawingLaser st = true ->
  r_timeouts (redraw P st sf now) = [].
Proof.
  intros H. destruct (surfaceReady sf) eqn:Hr.
  - destruct (redraw_ready P st sf now Hr) as [Ht _]. rewrite Ht.
    destruct H as [H | H]; rewrite H;
      [reflexivity | rewrite andb_false_r; reflexivity].
  - apply redraw_not_ready, Hr.
Qed.

Lemma frame_without_timeouts (w : World) (now : Z) :
  r_timeouts (redraw (props w) (state w) (surfaces w) now) = [] ->
  timers (step w (AnimationFrame now)) = timers w /\
  calls (step w (AnimationFrame now)) = calls w /\
  props (step w (AnimationFrame now)) = props w /\
  state (step w (AnimationFrame now)) = state w.
Proof.
  intros H. cbn [step].
  pose proof (loop_requests (props w) (state w) (surfaces w) now) as [E _].
  destruct (loop (props w) (state w) (surfaces w) now) as [r again].
  cbn [fst] in E. subst r. cbn. rewrite H, app_nil_r. repeat split.
Qed.

(** C4: on a slide whose persisted list holds no laser stroke, a pass of
    the compositor schedules no clean-up, the clean-up callback itself makes
    no call of [onUpdateSlide], and so a frame followed by whatever timeout
    is due leaves the call log and the slide as they were. *)
Theorem laser_gc_idempotent (w : World) (now : Z) :
  (forall s, In s (strokes (slide (props w))) -> stroke_tool s <> LASER) ->
  r_timeouts (redraw (props w) (state w) (surfaces w) now) = [] /\
  laserCleanup (slide (props w)) = [] /\
  (timers (step w (AnimationFrame now)) = timers w /\
   calls (step w (AnimationFrame now)) = calls w /\
   props (step w (AnimationFrame now)) = props w) /\
  (timers w = [] ->
   calls (run w [AnimationFrame now; TimeoutFires]) = calls w /\
   props (run w [AnimationFrame now; TimeoutFires]) = props w).
Proof.
  intros H.
  assert (Hr : r_timeouts (redraw (props w) (state w) (surfaces w) now) = [])
    by (apply redraw_no_timeouts_when; left; apply no_laser_existsb, H).
  destruct (frame_without_timeouts w now Hr) as (Ht & Hc & Hp & _).
  split; [exact Hr|]. split; [apply laserCleanup_no_laser, H|].
  split; [repeat split; assumption|].
  intros Hnil. unfold run. cbn [fold_left].
  remember (step w (AnimationFrame now)) as w1 eqn:Ew1.
  cbn [step]. rewrite Ht, Hnil. split; assumption.
Qed.

(** C5: while a laser stroke is being drawn (a gesture is in progress and
    the in-progress stroke's tool is the laser), a pass of [redraw]
    schedules no removal of laser strokes, whatever the persisted list, the
    clock and the last-activity time are. *)
Theorem no_gc_during_laser_gesture (w : World) (now : Z) (cs : Stroke) :
  isDrawing (state w) = true ->
  currentStroke (state w) = Some cs ->
  stroke_tool cs = LASER ->
  r_timeouts (redraw (props w) (state w) (surfaces w) now) = [] /\
  timers (step w (AnimationFrame now)) = timers w /\
  calls (step w (AnimationFrame now)) = calls w.
Proof.
  intros Hd Hc Ht.
  assert (Hr : r_timeouts (redraw (props w) (state w) (surfaces w) now) = []).
  { apply redraw_no_timeouts_when. right.
    unfold isDrawingLaser. rewrite Hd, Hc, Ht. reflexivity. }
  destruct (frame_without_timeouts w now Hr) as (H1 & H2 & _).
  repeat split; assumption.
Qed.

End CompositorFacts.

(** C3 (as stated, refuted): with a gesture in progress and a screen
    stream attached, [redraw] on a component whose canvas is not mounted,
    or whose offscreen canvas hands out no context, returns at its guard
    without a value, and [loop] requests no further frame. *)
Lemma redraw_without_surface_stops :
  let trail := mkStroke "l" LASER [mkPoint 0 0 None; mkPoint 3 4 None]
                        "#EF4444" 4 None in
  let P := mkProps (mkSlide "slide-1" "thumb" "full" [trail] EmptyString)
                   LASER "#EF4444" 4 (Some (mkMediaStream "screen")) in
  let st := mkState true (Some trail) None (0, 0)%Q 0 in
  let unmounted := mkSurfaces None None true in
  let noOffscreen :=
    mkSurfaces (Some (mkCanvas 1920 1080 (Some freshCtx)))
               (Some (mkCanvas 1920 1080 None)) true in
  isDrawing st = true /\
  screenStream P <> None /\
  r_return (redraw (M := approxMath) P st unmounted 0) = None /\
  snd (loop (M := approxMath) P st unmounted 0) = false /\
  r_return (redraw (M := approxMath) P st noOffscreen 0) = None /\
  snd (loop (M := approxMath) P st noOffscreen 0) = false.
Proof.
  cbv zeta. split; [reflexivity|]. split; [discriminate|].
  repeat split.
Qed.

Lemma redraw_continues_iff_witness :
  let P := mkProps (mkSlide "slide-1" "thumb" "full"
                      [mkStroke "l" LASER [mkPoint 0 0 None; mkPoint 3 4 None]
                                "#EF4444" 4 None] EmptyString)
                   PEN "#000000" 4 None in
  let st := mkState false None None (0, 0)%Q 0 in
  let sf := mkSurfaces (Some (mkCanvas 1920 1080 (Some freshCtx))) None true in
  r_return (redraw (M := approxMath) P st sf 2500) = Some true /\
  r_return (redraw (M := approxMath) P st sf 3100) = Some false /\
  snd (loop (M := approxMath) P st sf 2500) = true /\
  r_return (redraw (M := approxMath) P st (mkSurfaces None None true) 2500)
  = None.
Proof.
  intros P st sf.
  assert (Hlaser : (exists s, In s (strokes (slide P)) /\ stroke_tool s = LASER)
                   /\ (0 < laserOpacity (isDrawingLaser st) 2500
                             (lastActive st))%Q).
  { split; [|reflexivity].
    eexists. split; [left; reflexivity | reflexivity]. }
  split; [|split; [|split]].
  - apply (proj1 (redraw_continues_iff (M := approxMath) P st sf 2500) eq_refl).
    right. left. exact Hlaser.
  - apply (proj1 (redraw_continues_iff (M := approxMath) P st sf 3100) eq_refl).
    intros [H | [[_ H] | H]].
    + discriminate H.
    + vm_compute in H. discriminate H.
    + apply H. reflexivity.
  - apply (proj2 (proj2 (redraw_continues_iff (M := approxMath) P st sf 2500))).
    split; [reflexivity|]. right. left. exact Hlaser.
  - apply (proj1 (proj2 (redraw_continues_iff (M := approxMath) P st
                           (mkSurfaces None None true) 2500))).
    reflexivity.
Defined.

Lemma laser_gc_idempotent_witness :
  let w := mkWorld
             (mkProps (mkSlide "slide-1" "thumb" "full"
                         [mkStroke "p" PEN [mkPoint 0 0 None; mkPoint 3 4 None]
                                   "#000000" 4 None] EmptyString)
                      PEN "#000000" 4 None)
             (mkState false None None (0, 0)%Q 0)
             (mkSurfaces (Some (mkCanvas 1920 1080 (Some freshCtx))) None true)
             [] [] false in
  calls (run (M := approxMath) w [AnimationFrame 5000; TimeoutFires]) = calls w /\
  props (run (M := approxMath) w [AnimationFrame 5000; TimeoutFires]) = props w.
Proof.
  intros w.
  apply (laser_gc_idempotent (M := approxMath) w 5000).
  - intros s [Hs | []]. subst s. discriminate.
  - reflexivity.
Defined.

Lemma no_gc_during_laser_gesture_witness :
  let trail := mkStroke "l" LASER [mkPoint 0 0 None; mkPoint 3 4 None]
                        "#EF4444" 4 None in
  let w := mkWorld
             (mkProps (mkSlide "slide-1" "thumb" "full" [trail] EmptyString)
                      LASER "#EF4444" 4 None)
             (mkState true (Some trail) None (0, 0)%Q 0)
             (mkSurfaces (Some (mkCanvas 1920 1080 (Some freshCtx))) None true)
             [] [] false in
  r_timeouts (redraw (M := approxMath) (props w) (state w) (surfaces w) 9000) = [].
Proof.
  intros trail w.
  apply (no_gc_during_laser_gesture (M := approxMath) w 9000 trail);
    reflexivity.
Defined.

(** The scenario of a laser stroke finished at 0: at 3100 the pass
    schedules the clean-up, and when the timeout fires the stroke is
    removed from the persisted list through one call of [onUpdateSlide]. *)
Example laser_removed_after_fade :
  let trail := mkStroke "l" LASER [mkPoint 0 0 None; mkPoint 3 4 None]
                        "#EF4444" 4 None in
  let ink := mkStroke "p" PEN [mkPoint 1 1 None] "#000000" 4 None in
  let sl := mkSlide "slide-1" "thumb" "full" [ink; trail] EmptyString in
  let w := mkWorld (mkProps sl LASER "#EF4444" 4 None)
                   (mkState false None None (0, 0)%Q 0)
                   (mkSurfaces (Some (mkCanvas 1920 1080 (Some freshCtx)))
                               None true)
                   [] [] true in
  timers (run (M := approxMath) w [AnimationFrame 2500]) = [] /\
  timers (run (M := approxMath) w [AnimationFrame 3100]) = [sl] /\
  frameRequested (run (M := approxMath) w [AnimationFrame 3100]) = false /\
  calls (run (M := approxMath) w [AnimationFrame 3100; TimeoutFires])
  = [("slide-1"%string, [ink])] /\
  strokes (slide (props (run (M := approxMath) w
                           [AnimationFrame 3100; TimeoutFires]))) = [ink].
Proof. repeat split; vm_compute; reflexivity. Qed.

(* ================================================================== *)
(** * The renderer *)
(* ================================================================== *)

Lemma first_point_at_index (l1 l2 : list Point) :
  first_point l1 = first_point l2 ->
  at_index l1 0 = at_index l2 0 /\
  (List.length l1 =? 0)%nat = (List.length l2 =? 0)%nat.
Proof.
  destruct l1, l2; cbn; intros H; try discriminate; split;
    try reflexivity; congruence.
Qed.

Lemma last_point_snoc (l : list Point) (p : Point) :
  last_point (l ++ [p]) = Some p /\
  at_index (l ++ [p]) (List.length (l ++ [p]) - 1) = p.
Proof.
  unfold last_point, at_index. rewrite rev_app_distr. split; [reflexivity|].
  rewrite length_app. cbn [List.length].
  replace (List.length l + 1 - 1)%nat with (List.length l) by lia.
  rewrite app_nth2 by lia. rewrite Nat.sub_diag. reflexivity.
Qed.

Lemma last_point_at_index (l1 l2 : list Point) :
  last_point l1 = last_point l2 ->
  at_index l1 (List.length l1 - 1) = at_index l2 (List.length l2 - 1).
Proof.
  destruct l1 as [|a1 t1] using rev_ind; destruct l2 as [|a2 t2] using rev_ind;
    intros H; try reflexivity.
  - rewrite (proj1 (last_point_snoc t2 a2)) in H. discriminate H.
  - rewrite (proj1 (last_point_snoc t1 a1)) in H. discriminate H.
  - rewrite (proj1 (last_point_snoc t1 a1)),
            (proj1 (last_point_snoc t2 a2)) in H.
    rewrite (proj2 (last_point_snoc t1 a1)), (proj2 (last_point_snoc t2 a2)).
    congruence.
Qed.

Lemma forRange_extend (lo hi : nat) (f : nat -> PathCmd) (c : Ctx) :
  forRange lo hi (fun i => extend_path (f i)) c
  = mkCtx (style c) (path c ++ map f (seq lo (hi - lo))) (painted c).
Proof.
  unfold forRange. revert c.
  induction (seq lo (hi - lo)) as [|i l IH]; intros c.
  - cbn. rewrite app_nil_r. destruct c; reflexivity.
  - cbn [fold_left map]. rewrite IH. cbn. rewrite <- app_assoc. reflexivity.
Qed.

Lemma last_point_hd_rev (l : list Point) :
  l <> [] ->
  last_point l = Some (at_index l (List.length l - 1)).
Proof.
  destruct l as [|a t] using rev_ind; [congruence|]. intros _.
  destruct (last_point_snoc t a) as [H1 H2]. rewrite H1, H2. reflexivity.
Qed.

Section RendererFacts.
Context {M : JsMath}.

(** C6: two Rectangle, Circle or Arrow strokes with the same tool, colour
    and width whose point sequences have the same first and the same last
    element are rendered by the same calls on any context: the points in
    between (and the stroke's id) play no part. *)
Theorem shape_render_endpoints_only
    (s1 s2 : Stroke) (o : option Q) (c : Ctx) :
  In (stroke_tool s1) [RECTANGLE; CIRCLE; ARROW] ->
  stroke_tool s1 = stroke_tool s2 ->
  stroke_color s1 = stroke_color s2 ->
  stroke_width s1 = stroke_width s2 ->
  first_point (points s1) = first_point (points s2) ->
  last_point (points s1) = last_point (points s2) ->
  renderStroke s1 o c = renderStroke s2 o c.
Proof.
  intros Hshape Ht Hc Hw Hf Hl.
  destruct (first_point_at_index _ _ Hf) as [H0 He].
  pose proof (last_point_at_index _ _ Hl) as Hn.
  unfold renderStroke, renderStandard, renderRectangle, renderCircle,
    renderArrow.
  rewrite <- Ht, <- Hc, <- Hw, <- He, <- H0, <- Hn.
  destruct Hshape as [E | [E | [E | []]]]; rewrite <- E; reflexivity.
Qed.

Lemma pathOnly_extend (cmd : PathCmd) : pathOnly (extend_path cmd).
Proof. intros c. split; reflexivity. Qed.

Lemma pathOnly_andThen (a b : Draw) :
  pathOnly a -> pathOnly b -> pathOnly (andThen a b).
Proof.
  intros Ha Hb c. unfold andThen.
  destruct (Ha c) as [H1 H2], (Hb (a c)) as [H3 H4]. split; congruence.
Qed.

Lemma pathOnly_forRange (lo hi : nat) (body : nat -> Draw) :
  (forall i, pathOnly (body i)) -> pathOnly (forRange lo hi body).
Proof.
  intros Hb. unfold forRange. generalize (seq lo (hi - lo)) as l.
  induction l as [|i l IH]; intros c; [split; reflexivity|].
  cbn [fold_left]. destruct (IH (body i c)) as [H1 H2], (Hb i c) as [H3 H4].
  split; congruence.
Qed.

Lemma renderFreehand_paints (s : Stroke) (c : Ctx) :
  exists pth,
    painted (renderFreehand s c) = painted c ++ [Stroked (style c) pth].
Proof.
  unfold renderFreehand.
  match goal with
  | |- context [andThen ?a (andThen ?b stroke)] =>
      assert (Hp : pathOnly (andThen a b))
  end.
  { apply pathOnly_andThen; [apply pathOnly_extend|].
    destruct (2 <? List.length (points s))%nat.
    - apply pathOnly_andThen; [|apply pathOnly_extend].
      apply pathOnly_forRange. intros i. apply pathOnly_extend.
    - apply pathOnly_forRange. intros i. apply pathOnly_extend. }
  match type of Hp with
  | pathOnly ?d =>
      destruct (Hp c) as [Hs Hpt]; exists (path (d c));
      change (painted (stroke (d c))
              = painted c ++ [Stroked (style c) (path (d c))])
  end.
  unfold stroke, paint. cbn [painted]. rewrite Hs, Hpt. reflexivity.
Qed.

(** How an eraser stroke is painted. *)
Lemma render_eraser (s : Stroke) (o : option Q) (c : Ctx) :
  stroke_tool s = ERASER ->
  (points s = [] -> painted (renderStroke s o c) = painted c) /\
  (points s <> [] ->
   exists pth,
     painted (renderStroke s o c)
     = painted c
       ++ [Stroked (eraserStyle s (shadowColor (style c)) (fillStyle (style c)))
                   pth]).
Proof.
  intros Ht. unfold renderStroke, renderStandard. rewrite Ht.
  cbn [ToolType_eqb]. split.
  - intros Hp. rewrite Hp. reflexivity.
  - intros Hp. destruct (points s) as [|p l] eqn:E; [congruence|].
    cbn [List.length Nat.eqb]. unfold andThen.
    match goal with
    | |- context [renderFreehand s ?c1] =>
        destruct (renderFreehand_paints s c1) as [pth Hpth]; exists pth;
        rewrite Hpth
    end.
    reflexivity.
Qed.

Lemma renderFreehand_explicit (s : Stroke) (c : Ctx) :
  renderFreehand s c
  = mkCtx (style c) (path c ++ freehandCmds (points s))
          (painted c ++ [Stroked (style c) (path c ++ freehandCmds (points s))]).
Proof.
  unfold renderFreehand, freehandCmds. cbv zeta.
  unfold andThen, moveTo, lineTo, quadraticCurveTo.
  destruct (2 <? List.length (points s))%nat.
  - rewrite (forRange_extend 1 (List.length (points s) - 2)
      (fun i => QuadraticCurveTo
                  (px (at_index (points s) i)) (py (at_index (points s) i))
                  ((px (at_index (points s) i)
                    + px (at_index (points s) (i + 1))) / 2)
                  ((py (at_index (points s) i)
                    + py (at_index (points s) (i + 1))) / 2))).
    unfold stroke, paint, extend_path. cbn [style path painted].
    rewrite <- !app_assoc. reflexivity.
  - rewrite (forRange_extend 1 (List.length (points s))
      (fun i => LineTo (px (at_index (points s) i))
                       (py (at_index (points s) i)))).
    unfold stroke, paint, extend_path. cbn [style path painted].
    rewrite <- !app_assoc. reflexivity.
Qed.

Lemma freehandCmds_length (l : list Point) :
  l <> [] ->
  List.length (freehandCmds l)
  = (if (List.length l <=? 2)%nat then List.length l else List.length l - 1)%nat.
Proof.
  intros Hl. unfold freehandCmds. cbv zeta. cbn [List.length].
  assert (1 <= List.length l)%nat by (destruct l; [congruence | cbn; lia]).
  destruct (Nat.ltb_spec 2 (List.length l)).
  - rewrite length_app, length_map, length_seq. cbn [List.length].
    destruct (Nat.leb_spec (List.length l) 2); lia.
  - rewrite length_map, length_seq.
    destruct (Nat.leb_spec (List.length l) 2); lia.
Qed.

Lemma freehandCmds_ends (l : list Point) :
  l <> [] ->
  option_map cmd_end (hd_error (rev (freehandCmds l)))
  = option_map xy (last_point l).
Proof.
  intros Hl. rewrite (last_point_hd_rev l Hl). cbn [option_map].
  unfold freehandCmds. cbv zeta.
  assert (1 <= List.length l)%nat by (destruct l; [congruence | cbn; lia]).
  destruct (Nat.ltb_spec 2 (List.length l)).
  - cbn [rev]. rewrite rev_app_distr. reflexivity.
  - destruct (Nat.eq_dec (List.length l) 1) as [E | E].
    + rewrite E. reflexivity.
    + assert (E2 : List.length l = 2%nat) by lia. rewrite E2. reflexivity.
Qed.

(** The style the standard branch strokes a freehand tool with. *)
Lemma render_freehand_tool (s : Stroke) (o : option Q) (c : Ctx) :
  In (stroke_tool s) [PEN; HIGHLIGHTER; ERASER] -> points s <> [] ->
  exists sty : Style,
    painted (renderStroke s o c)
    = painted c ++ [Stroked sty (freehandCmds (points s))] /\
    lineWidth sty = stroke_width s /\
    lineCap sty = "round"%string /\ lineJoin sty = "round"%string /\
    shadowBlur sty = 0%Q /\
    match stroke_tool s with
    | HIGHLIGHTER =>
        globalAlpha sty = (1 # 2)%Q /\
        globalCompositeOperation sty = "multiply"%string /\
        strokeStyle sty
        = (if String.eqb (stroke_color s) EmptyString
           then "#ffff00"%string else stroke_color s)
    | ERASER =>
        globalAlpha sty = 1%Q /\
        globalCompositeOperation sty = "destination-out"%string /\
        strokeStyle sty = "rgba(0,0,0,1)"%string
    | _ =>
        globalAlpha sty = 1%Q /\
        globalCompositeOperation sty = "source-over"%string /\
        strokeStyle sty = stroke_color s
    end.
Proof.
  intros Ht Hp. unfold renderStroke, renderStandard.
  assert (Hn : (List.length (points s) =? 0)%nat = false).
  { destruct (points s); [congruence | reflexivity]. }
  destruct Ht as [E | [E | [E | []]]]; rewrite <- E; cbn [ToolType_eqb];
    unfold andThen; rewrite Hn; rewrite renderFreehand_explicit;
    cbn [painted path style beginPath].
  - eexists. split; [reflexivity|]. cbn. repeat split.
  - destruct (String.eqb (stroke_color s) EmptyString);
      (eexists; split; [reflexivity|]; cbn; repeat split).
  - eexists. split; [reflexivity|]. cbn. repeat split.
Qed.

(** C7: a gesture started with the Eraser selected at width [w] opens a
    stroke of width [w * 5] (20 for 4) whose colour is [#000000] whatever
    colour is selected, seeded with the pointer's point.  The renderer
    paints an eraser stroke that has points as exactly one stroked path,
    the freehand path through its points (from a move to the first point
    to the last point), at the stroke's width, with [destination-out]
    compositing, full alpha and stroke style [rgba(0,0,0,1)] whatever the
    stroke's colour; for the stroke just opened that path is the move to
    its one point. *)
Theorem eraser_stroke_and_blend
    (P : Props) (e : PointerInput) (uuid : string) (now : Z) (st : State) :
  tool P = ERASER ->
  (exists s : Stroke,
     currentStroke (startDrawing P e uuid now st) = Some s /\
     stroke_tool s = ERASER /\
     stroke_width s = (width P * 5)%Q /\
     (width P = 4%Q -> stroke_width s = 20%Q) /\
     stroke_color s = "#000000"%string /\
     points s = [ev_coords e] /\
     (forall (o : option Q) (c : Ctx),
        painted (renderStroke s o c)
        = painted c
          ++ [Stroked
                (mkStyle (width P * 5) "round" "round" 0
                         (shadowColor (style c)) "destination-out" 1
                         "rgba(0,0,0,1)" (fillStyle (style c)))
                [MoveTo (px (ev_coords e)) (py (ev_coords e))]])) /\
  (forall (s : Stroke) (o : option Q) (c : Ctx),
     stroke_tool s = ERASER -> points s <> [] ->
     painted (renderStroke s o c)
     = painted c
       ++ [Stroked
             (mkStyle (stroke_width s) "round" "round" 0
                      (shadowColor (style c)) "destination-out" 1
                      "rgba(0,0,0,1)" (fillStyle (style c)))
             (freehandCmds (points s))] /\
     hd_error (freehandCmds (points s))
     = Some (MoveTo (px (at_index (points s) 0)) (py (at_index (points s) 0))) /\
     option_map cmd_end (hd_error (rev (freehandCmds (points s))))
     = option_map xy (last_point (points s)) /\
     List.length (freehandCmds (points s))
     = (if (List.length (points s) <=? 2)%nat
        then List.length (points s) else List.length (points s) - 1)%nat).
Proof.
  intros Ht.
  assert (Hrender : forall (s : Stroke) (o : option Q) (c : Ctx),
    stroke_tool s = ERASER -> points s <> [] ->
    painted (renderStroke s o c)
    = painted c
      ++ [Stroked
            (mkStyle (stroke_width s) "round" "round" 0
                     (shadowColor (style c)) "destination-out" 1
                     "rgba(0,0,0,1)" (fillStyle (style c)))
            (freehandCmds (points s))]).
  { intros s o c Hs Hp.
    destruct (proj2 (render_eraser s o c Hs) Hp) as [pth Hsty].
    destruct (render_freehand_tool s o c) as (sty & Hpath & _);
      [rewrite Hs; cbn; auto | exact Hp |].
    rewrite Hpath in Hsty. apply app_inv_head in Hsty.
    inversion Hsty; subst. exact Hpath. }
  split.
  - unfold startDrawing. rewrite Ht. cbn [ToolType_eqb].
    eexists. split; [reflexivity|].
    cbn [stroke_tool stroke_width stroke_color points].
    split; [reflexivity|]. split; [reflexivity|].
    split; [intros Hw; rewrite Hw; reflexivity|].
    split; [reflexivity|]. split; [reflexivity|].
    intros o c.
    match goal with
    | |- painted (renderStroke ?s o c) = _ =>
        rewrite (Hrender s o c eq_refl ltac:(discriminate))
    end.
    reflexivity.
  - intros s o c Hs Hp.
    split; [apply Hrender; assumption|]. split; [reflexivity|].
    split; [apply freehandCmds_ends, Hp | apply freehandCmds_length, Hp].
Qed.

End RendererFacts.

Lemma shape_render_endpoints_only_witness :
  let a := mkStroke "a" CIRCLE [mkPoint 1 1 None; mkPoint 4 5 None]
                    "#10B981" 8 None in
  let b := mkStroke "b" CIRCLE
                    [mkPoint 1 1 None; mkPoint 9 9 None; mkPoint 2 7 None;
                     mkPoint 4 5 None]
                    "#10B981" 8 None in
  renderStroke (M := approxMath) a None freshCtx
  = renderStroke (M := approxMath) b None freshCtx.
Proof.
  intros a b.
  apply (shape_render_endpoints_only (M := approxMath) a b None freshCtx);
    try reflexivity.
  right. left. reflexivity.
Defined.

Lemma eraser_stroke_and_blend_witness :
  let P := mkProps (mkSlide "slide-1" "thumb" "full" [] EmptyString)
                   ERASER "#3B82F6" 4 None in
  let st := mkState false None None (0, 0)%Q 0 in
  let e := mkPointerInput None (mkPoint 7 7 (Some 1)) in
  let drag := mkStroke "d" ERASER
                [mkPoint 0 0 None; mkPoint 4 0 None; mkPoint 4 4 None]
                "#000000" 20 None in
  (exists s : Stroke,
     currentStroke (startDrawing P e "e" 1 st) = Some s /\
     stroke_width s = 20%Q /\ stroke_color s = "#000000"%string /\
     painted (renderStroke (M := approxMath) s None freshCtx)
     = [Stroked
          (mkStyle (4 * 5) "round" "round" 0 "rgba(0, 0, 0, 0)"
                   "destination-out" 1 "rgba(0,0,0,1)" "#000000")
          [MoveTo 7 7]]) /\
  painted (renderStroke (M := approxMath) drag None freshCtx)
  = [Stroked
       (mkStyle 20 "round" "round" 0 "rgba(0, 0, 0, 0)"
                "destination-out" 1 "rgba(0,0,0,1)" "#000000")
       [MoveTo 0 0; QuadraticCurveTo 4 0 4 4]].
Proof.
  intros P st e drag.
  destruct (eraser_stroke_and_blend (M := approxMath) P e "e" 1 st eq_refl)
    as [(s & Hc & _ & _ & Hw & Hcol & _ & Hr) Hany].
  split.
  - exists s. split; [exact Hc|]. split; [apply Hw; reflexivity|].
    split; [exact Hcol | apply (Hr None freshCtx)].
  - exact (proj1 (Hany drag None freshCtx eq_refl ltac:(discriminate))).
Defined.

(* ================================================================== *)
(** * The laser trail *)
(* ================================================================== *)

Lemma taperFactor_unfold (i n : nat) :
  (taperFactor i n
   == (1 # 2) + (1 # 2) * (inject_Z (Z.of_nat i) / inject_Z (Z.of_nat n)))%Q.
Proof. reflexivity. Qed.

Lemma inject_nat_pos (n : nat) : (0 < n)%nat -> (0 < inject_Z (Z.of_nat n))%Q.
Proof. intros H. change 0%Q with (inject_Z 0). rewrite <- Zlt_Qlt. lia. Qed.

Lemma taperFactor_oldest (n : nat) : (taperFactor 0 n == 1 # 2)%Q.
Proof.
  rewrite taperFactor_unfold. change (inject_Z (Z.of_nat 0)) with 0%Q.
  unfold Qdiv. rewrite Qmult_0_l, Qmult_0_r, Qplus_0_r. reflexivity.
Qed.

Lemma taperFactor_increasing (i j n : nat) :
  (0 < n)%nat -> (i < j)%nat -> (taperFactor i n < taperFactor j n)%Q.
Proof.
  intros Hn Hij. rewrite !taperFactor_unfold.
  apply Qplus_lt_r. apply Qmult_lt_l; [reflexivity|].
  unfold Qdiv. apply Qmult_lt_r.
  - apply Qinv_lt_0_compat, inject_nat_pos, Hn.
  - rewrite <- Zlt_Qlt. lia.
Qed.

Lemma taperFactor_newest (n : nat) :
  (2 <= n)%nat ->
  (taperFactor (n - 2) n == 1 - 1 / inject_Z (Z.of_nat n))%Q.
Proof.
  intros Hn. rewrite taperFactor_unfold.
  rewrite Nat2Z.inj_sub by exact Hn. unfold Z.sub.
  rewrite inject_Z_plus, inject_Z_opp. change (inject_Z (Z.of_nat 2)) with 2%Q.
  field. intros E.
  pose proof (inject_nat_pos n ltac:(lia)) as Hpos.
  rewrite E in Hpos. discriminate Hpos.
Qed.

Lemma taperFactor_below_one (i n : nat) :
  (i < n)%nat -> (taperFactor i n < 1)%Q.
Proof.
  intros Hi. rewrite taperFactor_unfold.
  assert (Hq : (inject_Z (Z.of_nat i) / inject_Z (Z.of_nat n) < 1)%Q).
  { apply Qlt_shift_div_r; [apply inject_nat_pos; lia|].
    rewrite Qmult_1_l. rewrite <- Zlt_Qlt. lia. }
  set (u := (inject_Z (Z.of_nat i) / inject_Z (Z.of_nat n))%Q) in *.
  lra.
Qed.

Section LaserFacts.
Context {M : JsMath}.

Lemma laser_segments (s : Stroke) (life : Q) (f : string) (l : list nat) :
  forall c : Ctx,
  laserStyled s life f (style c) ->
  let c' :=
    fold_left
      (fun acc i =>
         stroke
           (lineTo (px (at_index (points s) (i + 1)))
                   (py (at_index (points s) (i + 1)))
              (moveTo (px (at_index (points s) i))
                      (py (at_index (points s) i))
                 (set_strokeStyle (stroke_color s)
                    (set_lineWidth
                       (Math_max 1
                          (stroke_width s
                           * taperFactor i (List.length (points s))))
                       (beginPath acc))))))
      l c in
  laserStyled s life f (style c') /\
  painted c' = painted c ++ map (laserSegment s life f) l.
Proof.
  induction l as [|i l IH]; intros c Hc; cbn zeta.
  - cbn. rewrite app_nil_r. split; [exact Hc | reflexivity].
  - cbn [fold_left map].
    match goal with
    | |- context [fold_left ?body l ?c1] =>
        assert (Hstep : laserStyled s life f (style c1) /\
                        painted c1 = painted c ++ [laserSegment s life f i])
    end.
    { destruct c as [[lw lc lj sb sc gco ga ss fs] pth ptd].
      destruct Hc as (H1 & H2 & H3 & H4 & H5 & H6 & H7). cbn in *. subst.
      split; [repeat split|]. reflexivity. }
    destruct Hstep as [Hsty Hptd].
    specialize (IH _ Hsty). cbn zeta in IH. destruct IH as [IH1 IH2].
    split; [exact IH1|]. rewrite IH2, Hptd, <- app_assoc. reflexivity.
Qed.

(** What the laser branch paints for a visible stroke: one stroked
    segment per pair of consecutive points, oldest first, then the bulb. *)
Lemma render_laser (s : Stroke) (life : Q) (c : Ctx) :
  stroke_tool s = LASER -> points s <> [] -> (0 < life)%Q ->
  exists bulb : Paint,
    painted (renderStroke s (Some life) c)
    = painted c
      ++ map (laserSegment s life (fillStyle (style c)))
             (seq 0 (List.length (points s) - 1))
      ++ [bulb].
Proof.
  intros Ht Hp Hl. unfold renderStroke. rewrite Ht. cbn [ToolType_eqb].
  unfold renderLaser.
  assert (Hlen : (List.length (points s) <? 1)%nat = false).
  { apply Nat.ltb_ge. destruct (points s); [congruence | cbn; lia]. }
  assert (Hle : Qle_bool life 0 = false).
  { destruct (Qle_bool life 0) eqn:E; [|reflexivity].
    apply Qle_bool_iff in E. exfalso. exact (Qlt_not_le _ _ Hl E). }
  assert (Hgt : Qgtb life 0 = true) by (apply Qgtb_lt; exact Hl).
  unfold andThen, forRange. rewrite Hlen, Hle, Hgt. cbv beta iota.
  rewrite Nat.sub_0_r.
  match goal with
  | |- context [fold_left ?body ?l ?c1] =>
      destruct (laser_segments s life (fillStyle (style c)) l c1)
        as [Hsty Hptd]; [repeat split|];
      set (c2 := fold_left body l c1) in *
  end.
  eexists. unfold fill, paint. cbn [painted].
  unfold arc, extend_path, set_fillStyle, on_style, beginPath. cbn [painted].
  rewrite Hptd. rewrite <- app_assoc. reflexivity.
Qed.

(** C8 (amended): for a visible laser stroke with n >= 2 points the
    renderer strokes the n-1 consecutive segments, oldest first, the
    segment starting at index i with line width
    [max(1, width * taperFactor i n)], where
    [taperFactor i n = 0.5 + 0.5 * i / n]: 0.5 for the oldest segment,
    strictly increasing towards the newest, whose factor is [1 - 1/n],
    below 1. *)
Theorem laser_taper (s : Stroke) (life : Q) (c : Ctx) :
  stroke_tool s = LASER ->
  (2 <= List.length (points s))%nat ->
  (0 < life)%Q ->
  let n := List.length (points s) in
  (exists bulb : Paint,
     painted (renderStroke s (Some life) c)
     = painted c
       ++ map (laserSegment s life (fillStyle (style c))) (seq 0 (n - 1))
       ++ [bulb]) /\
  (forall (i : nat) (f : string),
     lineWidth (laserSegmentStyle s life f i)
     = Math_max 1 (stroke_width s * taperFactor i n)) /\
  (taperFactor 0 n == 1 # 2)%Q /\
  (forall i j : nat, (i < j)%nat -> (taperFactor i n < taperFactor j n)%Q) /\
  (taperFactor (n - 2) n == 1 - 1 / inject_Z (Z.of_nat n))%Q /\
  (taperFactor (n - 2) n < 1)%Q.
Proof.
  intros Ht Hn Hl n.
  split.
  { apply render_laser; try assumption.
    intros E. rewrite E in Hn. cbn in Hn. lia. }
  split; [reflexivity|].
  split; [apply taperFactor_oldest|].
  split; [intros i j Hij; apply taperFactor_increasing; [lia | exact Hij]|].
  split; [apply taperFactor_newest; exact Hn|].
  apply taperFactor_below_one. lia.
Qed.

End LaserFacts.

(** C8 (as stated, refuted): a laser stroke of two points and width 4 has
    one segment, which is both its oldest and its newest; it is stroked at
    line width 2, taper factor 0.5, not at factor 1.0. *)
Lemma laser_newest_segment_not_full_width :
  let s := mkStroke "l" LASER [mkPoint 0 0 None; mkPoint 3 4 None]
                    "#EF4444" 4 None in
  exists (sty : Style) (bulb : Paint),
    painted (renderStroke (M := approxMath) s None freshCtx)
    = [Stroked sty [MoveTo 0 0; LineTo 3 4]; bulb] /\
    (lineWidth sty == 2)%Q /\
    ~ (lineWidth sty == stroke_width s * 1)%Q /\
    (taperFactor (2 - 2) 2 == 1 # 2)%Q /\
    ~ (taperFactor (2 - 2) 2 == 1)%Q.
Proof.
  intros s. eexists. eexists. split; [vm_compute; reflexivity|].
  repeat split; intros H; vm_compute in H; discriminate H.
Qed.

Lemma laser_taper_witness :
  let s := mkStroke "l" LASER
                    [mkPoint 0 0 None; mkPoint 3 4 None; mkPoint 6 8 None;
                     mkPoint 9 9 None]
                    "#EF4444" 4 None in
  (taperFactor (4 - 2) 4 == 1 - 1 / inject_Z (Z.of_nat 4))%Q.
Proof.
  intros s.
  apply (laser_taper (M := approxMath) s (1 # 2) freshCtx);
    [reflexivity | cbn; lia | reflexivity].
Defined.

(* ================================================================== *)
(** * More on the renderer *)
(* ================================================================== *)

Lemma sameDraw_andThen (a a' b b' : Draw) :
  sameDraw a a' -> sameDraw b b' -> sameDraw (andThen a b) (andThen a' b').
Proof. intros Ha Hb c. unfold andThen. rewrite Ha. apply Hb. Qed.

Lemma sameDraw_forRange (lo hi : nat) (f g : nat -> Draw) :
  (forall i, sameDraw (f i) (g i)) ->
  sameDraw (forRange lo hi f) (forRange lo hi g).
Proof.
  intros H c. unfold forRange. revert c.
  induction (seq lo (hi - lo)) as [|i l IH]; intros c; [reflexivity|].
  cbn [fold_left]. rewrite (H i c). apply IH.
Qed.

Lemma same_coordinates (l1 l2 : list Point) :
  map xy l1 = map xy l2 ->
  List.length l1 = List.length l2 /\
  (forall i, px (at_index l1 i) = px (at_index l2 i)) /\
  (forall i, py (at_index l1 i) = py (at_index l2 i)).
Proof.
  intros H. split.
  - rewrite <- (length_map xy l1), <- (length_map xy l2), H. reflexivity.
  - assert (Hn : forall i, xy (at_index l1 i) = xy (at_index l2 i)).
    { intros i. unfold at_index.
      rewrite <- (map_nth xy l1 origin i), <- (map_nth xy l2 origin i), H.
      reflexivity. }
    split; intros i; specialize (Hn i); unfold xy in Hn; congruence.
Qed.

Section RendererIndependence.
Context {M : JsMath}.

Ltac same_draw Hx Hy :=
  repeat
    (cbv beta zeta;
     match goal with
     | |- sameDraw (andThen _ _) (andThen _ _) => apply sameDraw_andThen
     | |- sameDraw (forRange _ _ _) (forRange _ _ _) =>
         apply sameDraw_forRange; intros
     | |- sameDraw (if ?b then _ else _) (if ?b then _ else _) => destruct b
     | |- sameDraw (match ?x with _ => _ end) (match ?x with _ => _ end) =>
         destruct x
     | |- sameDraw _ _ =>
         let c := fresh "c" in
         intros c; rewrite ?Hx, ?Hy; reflexivity
     end).

(** The renderer reads of a stroke its tool, colour, width and the
    coordinates of its points, nothing else: two strokes that agree on
    these are painted by the same calls, whatever their ids, fill flags
    and point timestamps; and for every tool but the laser the opacity
    argument plays no part. *)
Theorem render_reads_geometry_only (s1 s2 : Stroke) (o o' : option Q) (c : Ctx) :
  stroke_tool s1 = stroke_tool s2 ->
  stroke_color s1 = stroke_color s2 ->
  stroke_width s1 = stroke_width s2 ->
  map xy (points s1) = map xy (points s2) ->
  renderStroke s1 o c = renderStroke s2 o c /\
  (stroke_tool s1 <> LASER -> renderStroke s1 o c = renderStroke s2 o' c).
Proof.
  intros Ht Hc Hw Hp.
  destruct (same_coordinates _ _ Hp) as (Hlen & Hx & Hy).
  destruct s1 as [id1 t1 l1 c1 w1 f1], s2 as [id2 t2 l2 c2 w2 f2].
  cbn [stroke_tool stroke_color stroke_width points] in *. subst t2 c2 w2.
  assert (Hsame : forall o0,
            sameDraw (renderStroke (mkStroke id1 t1 l1 c1 w1 f1) o0)
                     (renderStroke (mkStroke id2 t1 l2 c1 w1 f2) o0)).
  { intros o0.
    unfold renderStroke, renderLaser, renderStandard, renderFreehand,
      renderRectangle, renderCircle, renderArrow.
    cbn [stroke_tool stroke_color stroke_width points].
    rewrite Hlen. same_draw Hx Hy. }
  split; [apply Hsame|].
  intros Hnl. rewrite <- (Hsame o' c).
  unfold renderStroke. cbn [stroke_tool].
  destruct (ToolType_eqb t1 LASER) eqn:E; [|reflexivity].
  apply ToolType_eqb_eq in E. contradiction.
Qed.

End RendererIndependence.

Lemma render_reads_geometry_only_witness :
  let a := mkStroke "a" PEN [mkPoint 1 1 (Some 10); mkPoint 4 5 (Some 20);
                             mkPoint 6 6 (Some 30)] "#10B981" 8 None in
  let b := mkStroke "b" PEN [mkPoint 1 1 None; mkPoint 4 5 (Some 99);
                             mkPoint 6 6 None] "#10B981" 8 (Some true) in
  renderStroke (M := approxMath) a None freshCtx
  = renderStroke (M := approxMath) b (Some (1 # 3)) freshCtx.
Proof.
  intros a b.
  apply (render_reads_geometry_only (M := approxMath) a b None (Some (1 # 3))
           freshCtx); try reflexivity.
  discriminate.
Defined.

Section RendererShapes.
Context {M : JsMath}.

(** A Pen, Highlighter or Eraser stroke with points is painted as one
    stroked path that starts with a move to the first point, ends at the
    last point, and has one command per point up to two points and one
    fewer beyond (the curve through the midpoints uses the last two points
    in one command). *)
Theorem freehand_path_endpoints (s : Stroke) (o : option Q) (c : Ctx) :
  In (stroke_tool s) [PEN; HIGHLIGHTER; ERASER] ->
  points s <> [] ->
  exists (sty : Style) (cmds : list PathCmd),
    painted (renderStroke s o c) = painted c ++ [Stroked sty cmds] /\
    hd_error cmds
    = Some (MoveTo (px (at_index (points s) 0)) (py (at_index (points s) 0))) /\
    option_map cmd_end (hd_error (rev cmds))
    = option_map xy (last_point (points s)) /\
    List.length cmds
    = (if (List.length (points s) <=? 2)%nat
       then List.length (points s) else List.length (points s) - 1)%nat.
Proof.
  intros Ht Hp.
  destruct (render_freehand_tool s o c Ht Hp) as (sty & H & _).
  exists sty, (freehandCmds (points s)).
  split; [exact H|]. split; [reflexivity|].
  split; [apply freehandCmds_ends, Hp | apply freehandCmds_length, Hp].
Qed.

(** A Highlighter stroke is stroked at half opacity with [multiply]
    compositing, in its own colour or in [#ffff00] when its colour is the
    empty string; a Pen stroke at full opacity with [source-over] in its
    own colour; both at the stroke's width with round caps and joins and
    no shadow. *)
Theorem pen_and_highlighter_style (s : Stroke) (o : option Q) (c : Ctx) :
  stroke_tool s = PEN \/ stroke_tool s = HIGHLIGHTER ->
  points s <> [] ->
  exists (sty : Style) (cmds : list PathCmd),
    painted (renderStroke s o c) = painted c ++ [Stroked sty cmds] /\
    lineWidth sty = stroke_width s /\
    lineCap sty = "round"%string /\ lineJoin sty = "round"%string /\
    shadowBlur sty = 0%Q /\
    (stroke_tool s = PEN ->
     globalAlpha sty = 1%Q /\
     globalCompositeOperation sty = "source-over"%string /\
     strokeStyle sty = stroke_color s) /\
    (stroke_tool s = HIGHLIGHTER ->
     globalAlpha sty = (1 # 2)%Q /\
     globalCompositeOperation sty = "multiply"%string /\
     (stroke_color s = EmptyString -> strokeStyle sty = "#ffff00"%string) /\
     (stroke_color s <> EmptyString -> strokeStyle sty = stroke_color s)).
Proof.
  intros Ht Hp.
  assert (Hin : In (stroke_tool s) [PEN; HIGHLIGHTER; ERASER]).
  { destruct Ht as [E | E]; rewrite E; cbn; auto. }
  destruct (render_freehand_tool s o c Hin Hp)
    as (sty & H & Hw & Hcap & Hj & Hsb & Hrest).
  exists sty, (freehandCmds (points s)).
  repeat (split; [assumption|]).
  split; intros E; rewrite E in Hrest; [exact Hrest|].
  destruct Hrest as (Ha & Hg & Hs). repeat (split; [assumption|]).
  split; intros Hc.
  - rewrite Hc in Hs. exact Hs.
  - destruct (String.eqb_spec (stroke_color s) EmptyString);
      [contradiction | exact Hs].
Qed.

(** Strokes that leave no mark: a stroke without points, a Text stroke,
    and a laser stroke whose life is 0 or less. *)
Theorem invisible_strokes_paint_nothing (s : Stroke) (o : option Q) (c : Ctx) :
  points s = [] \/
  stroke_tool s = TEXT \/
  (stroke_tool s = LASER /\ exists life, o = Some life /\ (life <= 0)%Q) ->
  painted (renderStroke s o c) = painted c.
Proof.
  intros H. unfold renderStroke.
  destruct (ToolType_eqb (stroke_tool s) LASER) eqn:El.
  - unfold renderLaser, andThen.
    destruct (List.length (points s) <? 1)%nat eqn:En; [reflexivity|].
    destruct H as [H | [H | (_ & life & Ho & Hl)]].
    + rewrite H in En. discriminate En.
    + apply ToolType_eqb_eq in El. congruence.
    + rewrite Ho. apply Qle_bool_iff in Hl. rewrite Hl. reflexivity.
  - unfold renderStandard, andThen.
    destruct H as [H | [H | (Ht & _)]].
    + rewrite H. cbn [List.length Nat.eqb].
      destruct (stroke_tool s); try reflexivity.
      destruct (String.eqb (stroke_color s) EmptyString); reflexivity.
    + rewrite H. destruct (List.length (points s) =? 0)%nat; reflexivity.
    + rewrite Ht in El. discriminate El.
Qed.

End RendererShapes.

Lemma freehand_path_endpoints_witness :
  let s := mkStroke "a" PEN [mkPoint 0 0 None; mkPoint 10 0 None;
                             mkPoint 10 10 None; mkPoint 0 10 None]
                    "#000000" 4 None in
  exists (sty : Style) (cmds : list PathCmd),
    painted (renderStroke (M := approxMath) s None freshCtx)
    = [Stroked sty cmds] /\
    List.length cmds = 3%nat.
Proof.
  intros s.
  destruct (freehand_path_endpoints (M := approxMath) s None freshCtx)
    as (sty & cmds & H & _ & _ & Hl).
  - left. reflexivity.
  - discriminate.
  - exists sty, cmds. split; [exact H | exact Hl].
Defined.

Lemma pen_and_highlighter_style_witness :
  let s := mkStroke "h" HIGHLIGHTER [mkPoint 0 0 None; mkPoint 10 0 None]
                    EmptyString 8 None in
  exists (sty : Style) (cmds : list PathCmd),
    painted (renderStroke (M := approxMath) s None freshCtx)
    = [Stroked sty cmds] /\
    strokeStyle sty = "#ffff00"%string.
Proof.
  intros s.
  destruct (pen_and_highlighter_style (M := approxMath) s None freshCtx)
    as (sty & cmds & H & _ & _ & _ & _ & _ & Hh).
  - right. reflexivity.
  - discriminate.
  - exists sty, cmds. split; [exact H|].
    apply Hh; reflexivity.
Defined.

Lemma invisible_strokes_paint_nothing_witness :
  let s := mkStroke "l" LASER [mkPoint 0 0 None; mkPoint 3 4 None]
                    "#EF4444" 4 None in
  painted (renderStroke (M := approxMath) s (Some 0%Q) freshCtx) = [].
Proof.
  intros s.
  apply (invisible_strokes_paint_nothing (M := approxMath) s (Some 0%Q) freshCtx).
  right. right. split; [reflexivity|].
  exists 0%Q. split; [reflexivity | discriminate].
Defined.

Lemma taperFactor_at_least_half (i n : nat) : (1 # 2 <= taperFactor i n)%Q.
Proof.
  rewrite taperFactor_unfold.
  assert (H : (0 <= inject_Z (Z.of_nat i) / inject_Z (Z.of_nat n))%Q).
  { unfold Qdiv. apply Qmult_le_0_compat.
    - change 0%Q with (inject_Z 0). rewrite <- Zle_Qle. lia.
    - apply Qinv_le_0_compat. change 0%Q with (inject_Z 0).
      rewrite <- Zle_Qle. lia. }
  set (u := (inject_Z (Z.of_nat i) / inject_Z (Z.of_nat n))%Q) in *. lra.
Qed.

(** For the widths the toolbar offers, the lower bound 1 on a laser
    segment's line width never takes effect: every segment is stroked at
    exactly the stroke width times its taper factor. *)
Theorem palette_widths_never_clamped
    (s : Stroke) (life : Q) (f : string) (i : nat) :
  In (stroke_width s) STROKE_WIDTHS ->
  (Math_max 1 (stroke_width s * taperFactor i (List.length (points s)))
   == stroke_width s * taperFactor i (List.length (points s)))%Q /\
  (lineWidth (laserSegmentStyle s life f i)
   == stroke_width s * taperFactor i (List.length (points s)))%Q.
Proof.
  intros Hw.
  assert (H2 : (2 <= stroke_width s)%Q).
  { unfold STROKE_WIDTHS in Hw. cbn in Hw.
    destruct Hw as [E | [E | [E | [E | [E | []]]]]]; rewrite <- E;
      discriminate. }
  pose proof (taperFactor_at_least_half i (List.length (points s))) as Ht.
  assert (Hmax : (Math_max 1 (stroke_width s
                              * taperFactor i (List.length (points s)))
                  == stroke_width s
                     * taperFactor i (List.length (points s)))%Q).
  { unfold Math_max. apply Q.max_r.
    set (t := taperFactor i (List.length (points s))) in *.
    set (w := stroke_width s) in *.
    assert (Hp : (0 <= (w - 2) * (t - (1 # 2)))%Q)
      by (apply Qmult_le_0_compat; lra).
    assert (E : (w * t == (w - 2) * (t - (1 # 2)) + 2 * t + (1 # 2) * w - 1)%Q)
      by ring.
    rewrite E. lra. }
  split; [exact Hmax | exact Hmax].
Qed.

Lemma palette_widths_never_clamped_witness :
  let s := mkStroke "l" LASER [mkPoint 0 0 None; mkPoint 3 4 None]
                    "#EF4444" 2 None in
  (Math_max 1 (stroke_width s * taperFactor 0 2)
   == stroke_width s * taperFactor 0 2)%Q.
Proof.
  intros s.
  apply (palette_widths_never_clamped s 1 EmptyString 0).
  left. reflexivity.
Defined.

Section LaserHead.
Context {M : JsMath}.

Lemma render_laser_head (s : Stroke) (o : option Q) (c : Ctx) :
  stroke_tool s = LASER ->
  points s <> [] ->
  (forall l, o = Some l -> (0 < l)%Q) ->
  let life := match o with Some l => l | None => 1%Q end in
  let head := at_index (points s) (List.length (points s) - 1) in
  exists (sty : Style) (segments : list Paint),
    painted (renderStroke s o c)
    = painted c ++ segments
      ++ [Filled sty [Arc (px head) (py head) (stroke_width s / (3 # 2)) 0
                          (Math_PI * 2)]] /\
    List.length segments = (List.length (points s) - 1)%nat /\
    fillStyle sty = stroke_color s /\
    globalAlpha sty = life /\
    globalCompositeOperation sty = "source-over"%string /\
    shadowBlur sty = 15%Q /\
    shadowColor sty = stroke_color s.
Proof.
  intros Ht Hp Ho life head.
  assert (Hl : (0 < life)%Q).
  { subst life. destruct o as [l|]; [apply Ho; reflexivity | reflexivity]. }
  unfold renderStroke. rewrite Ht. cbn [ToolType_eqb]. unfold renderLaser.
  fold life.
  assert (Hlen : (List.length (points s) <? 1)%nat = false).
  { apply Nat.ltb_ge. destruct (points s); [congruence | cbn; lia]. }
  assert (Hle : Qle_bool life 0 = false).
  { destruct (Qle_bool life 0) eqn:E; [|reflexivity].
    apply Qle_bool_iff in E. exfalso. exact (Qlt_not_le _ _ Hl E). }
  assert (Hgt : Qgtb life 0 = true) by (apply Qgtb_lt; exact Hl).
  unfold andThen, forRange. rewrite Hlen, Hle, Hgt. cbv beta iota.
  rewrite Nat.sub_0_r.
  match goal with
  | |- context [fold_left ?body ?l ?c1] =>
      destruct (laser_segments s life (fillStyle (style c)) l c1)
        as [Hsty Hptd]; [repeat split|];
      set (c2 := fold_left body l c1) in *
  end.
  destruct Hsty as (_ & _ & Hsb & Hsc & Hg & Ha & _).
  eexists. eexists. unfold fill, paint. cbn [painted].
  unfold arc, extend_path, set_fillStyle, on_style, beginPath.
  cbn [painted path style app].
  rewrite Hptd.
  split; [rewrite <- app_assoc; reflexivity|].
  split; [rewrite length_map, length_seq; reflexivity|].
  cbn [fillStyle globalAlpha globalCompositeOperation shadowBlur shadowColor].
  repeat split; assumption.
Qed.

(** A visible laser stroke ends with its bulb: after the n-1 segments the
    last operation fills a circle of radius width/1.5 centred on the newest
    point, in the stroke's colour, with the life as opacity and the glow
    (shadow blur 15 in the stroke's colour); a one-point stroke is the bulb
    alone.  With no opacity argument the life is 1. *)
Theorem laser_bulb_at_head (s : Stroke) (o : option Q) (c : Ctx) :
  stroke_tool s = LASER ->
  points s <> [] ->
  (forall l, o = Some l -> (0 < l)%Q) ->
  let life := match o with Some l => l | None => 1%Q end in
  let head := at_index (points s) (List.length (points s) - 1) in
  exists (sty : Style) (segments : list Paint),
    painted (renderStroke s o c)
    = painted c ++ segments
      ++ [Filled sty [Arc (px head) (py head) (stroke_width s / (3 # 2)) 0
                          (Math_PI * 2)]] /\
    List.length segments = (List.length (points s) - 1)%nat /\
    (List.length (points s) = 1%nat -> segments = []) /\
    fillStyle sty = stroke_color s /\
    globalAlpha sty = life /\
    globalCompositeOperation sty = "source-over"%string /\
    shadowBlur sty = 15%Q /\
    shadowColor sty = stroke_color s.
Proof.
  intros Ht Hp Ho life head.
  destruct (render_laser_head s o c Ht Hp Ho)
    as (sty & segments & Hpaint & Hlen & Hrest).
  exists sty, segments.
  split; [exact Hpaint|]. split; [exact Hlen|].
  split; [|exact Hrest].
  intros H1. rewrite H1 in Hlen. cbn in Hlen.
  destruct segments; [reflexivity | discriminate Hlen].
Qed.

(** Every tool of the toolbar leaves a mark: a stroke with at least one
    point whose tool is one of [TOOLS], rendered as drawn live, adds at
    least one paint operation.  The Text tool, which would add none, is not
    among them. *)
Theorem every_palette_tool_paints (s : Stroke) (c : Ctx) :
  In (stroke_tool s) TOOLS ->
  points s <> [] ->
  (List.length (painted c)
   < List.length (painted (renderStroke s None c)))%nat /\
  ~ In TEXT TOOLS.
Proof.
  intros Ht Hp. split.
  2: { unfold TOOLS. cbn. intuition discriminate. }
  assert (Hn : (List.length (points s) =? 0)%nat = false).
  { destruct (points s); [congruence | reflexivity]. }
  unfold TOOLS in Ht. cbn in Ht.
  destruct Ht as [E | [E | [E | [E | [E | [E | [E | []]]]]]]].
  - destruct (render_freehand_tool s None c) as (sty & H & _);
      [rewrite <- E; cbn; auto | exact Hp |].
    rewrite H, length_app. cbn [List.length]. lia.
  - destruct (render_freehand_tool s None c) as (sty & H & _);
      [rewrite <- E; cbn; auto | exact Hp |].
    rewrite H, length_app. cbn [List.length]. lia.
  - destruct (render_laser_head s None c (eq_sym E) Hp) as (sty & sg & H & _);
      [discriminate|].
    rewrite H, !length_app. cbn [List.length]. lia.
  - destruct (render_freehand_tool s None c) as (sty & H & _);
      [rewrite <- E; cbn; auto | exact Hp |].
    rewrite H, length_app. cbn [List.length]. lia.
  - unfold renderStroke, renderStandard. rewrite <- E.
    cbn [ToolType_eqb]. unfold andThen. rewrite Hn.
    match goal with
    | |- (_ < List.length (painted ?X))%nat =>
        assert (H : exists a, painted X = painted c ++ [a])
          by (eexists; reflexivity)
    end.
    destruct H as (a & H). rewrite H, length_app. cbn [List.length]. lia.
  - unfold renderStroke, renderStandard. rewrite <- E.
    cbn [ToolType_eqb]. unfold andThen. rewrite Hn.
    match goal with
    | |- (_ < List.length (painted ?X))%nat =>
        assert (H : exists a, painted X = painted c ++ [a])
          by (eexists; reflexivity)
    end.
    destruct H as (a & H). rewrite H, length_app. cbn [List.length]. lia.
  - unfold renderStroke, renderStandard. rewrite <- E.
    cbn [ToolType_eqb]. unfold andThen. rewrite Hn.
    match goal with
    | |- (_ < List.length (painted ?X))%nat =>
        assert (H : exists a b, painted X = (painted c ++ [a]) ++ [b])
          by (do 2 eexists; reflexivity)
    end.
    destruct H as (a & b & H). rewrite H, !length_app. cbn [List.length]. lia.
Qed.

End LaserHead.

Lemma laser_bulb_at_head_witness :
  let s := mkStroke "l" LASER [mkPoint 3 4 None] "#EF4444" 4 None in
  exists (sty : Style) (segments : list Paint),
    painted (renderStroke (M := approxMath) s None freshCtx)
    = segments ++ [Filled sty [Arc 3 4 (4 / (3 # 2)) 0 ((355 # 113) * 2)]] /\
    segments = [].
Proof.
  intros s.
  destruct (laser_bulb_at_head (M := approxMath) s None freshCtx)
    as (sty & sg & H & _ & Hone & _).
  - reflexivity.
  - discriminate.
  - discriminate.
  - exists sty, sg. split; [exact H | apply Hone; reflexivity].
Defined.

Lemma every_palette_tool_paints_witness :
  let s := mkStroke "r" RECTANGLE [mkPoint 3 4 None] "#EF4444" 4 None in
  (List.length (painted freshCtx)
   < List.length (painted (renderStroke (M := approxMath) s None freshCtx)))%nat.
Proof.
  intros s.
  apply (every_palette_tool_paints (M := approxMath) s freshCtx).
  - unfold TOOLS. cbn. auto 10.
  - discriminate.
Defined.

(* ================================================================== *)
(** * More on the laser decay and the compositor *)
(* ================================================================== *)

Lemma fade_range (k : Z) :
  0 <= k < 1000 ->
  (0 < 1 - inject_Z k / inject_Z LASER_FADE_MS <= 1)%Q.
Proof.
  intros Hk. rewrite fade_value. split.
  - apply Qlt_shift_div_l; [reflexivity|]. rewrite Qmult_0_l.
    change 0%Q with (inject_Z 0). rewrite <- Zlt_Qlt. lia.
  - apply Qle_shift_div_r; [reflexivity|]. rewrite Qmult_1_l.
    change 1000%Q with (inject_Z 1000). rewrite <- Zle_Qle. lia.
Qed.

Lemma laserOpacity_cases (now la : Z) :
  (now - la < LASER_HOLD_MS /\ laserDecay false now la = (1%Q, true)) \/
  (LASER_HOLD_MS <= now - la < LASER_HOLD_MS + LASER_FADE_MS /\
   laserDecay false now la
   = ((1 - inject_Z (now - la - LASER_HOLD_MS) / inject_Z LASER_FADE_MS)%Q,
      true)) \/
  (LASER_HOLD_MS + LASER_FADE_MS <= now - la /\
   laserDecay false now la = (0%Q, false)).
Proof.
  unfold laserDecay.
  destruct (Z.ltb_spec (now - la) LASER_HOLD_MS); [left; split; auto|].
  destruct (Z.ltb_spec (now - la) (LASER_HOLD_MS + LASER_FADE_MS));
    [right; left | right; right]; split; auto.
Qed.

Lemma laserDecay_idle_facts (now la : Z) :
  (0 <= laserOpacity false now la <= 1)%Q /\
  snd (laserDecay false now la) = Qgtb (laserOpacity false now la) 0 /\
  ((0 < laserOpacity false now la)%Q <->
   now - la < LASER_HOLD_MS + LASER_FADE_MS).
Proof.
  unfold laserOpacity.
  destruct (laserOpacity_cases now la) as [[H E] | [[H E] | [H E]]];
    rewrite E; cbn [fst snd].
  - split; [split; discriminate|]. split; [reflexivity|].
    split; [intros _; unfold LASER_FADE_MS, LASER_HOLD_MS in *; lia
           | reflexivity].
  - assert (Hk : 0 <= now - la - LASER_HOLD_MS < 1000)
      by (unfold LASER_FADE_MS in H; lia).
    pose proof (fade_range _ Hk) as [Hpos Hle].
    split; [split; [apply Qlt_le_weak, Hpos | exact Hle]|].
    split; [symmetry; apply Qgtb_lt, Hpos|].
    split; [intros _; lia | intros _; exact Hpos].
  - split; [split; discriminate|]. split; [reflexivity|].
    split; [intros Hc; discriminate Hc | lia].
Qed.

(** The opacity the decay computes is always within [0,1], is 1 while a
    laser stroke is being drawn, is above 0 exactly until
    [LASER_HOLD_MS + LASER_FADE_MS] after the last activity otherwise, and
    the flag computed beside it holds exactly when the opacity is above
    0. *)
Theorem laser_decay_range_and_flag (drawing : bool) (now la : Z) :
  (0 <= laserOpacity drawing now la <= 1)%Q /\
  snd (laserDecay drawing now la) = Qgtb (laserOpacity drawing now la) 0 /\
  (drawing = true -> laserOpacity drawing now la = 1%Q) /\
  ((0 < laserOpacity false now la)%Q <->
   now - la < LASER_HOLD_MS + LASER_FADE_MS).
Proof.
  pose proof (laserDecay_idle_facts now la) as Hfalse.
  destruct drawing.
  - split; [split; discriminate|]. split; [reflexivity|].
    split; [reflexivity | apply Hfalse].
  - destruct Hfalse as (H1 & H2 & H3).
    split; [exact H1|]. split; [exact H2|].
    split; [discriminate | exact H3].
Qed.

Lemma laser_decay_range_and_flag_witness :
  laserOpacity true 99999 0 = 1%Q.
Proof. apply (laser_decay_range_and_flag true 99999 0). reflexivity. Defined.

(** With no laser stroke being drawn and the last activity fixed, the
    opacity never rises again as time passes. *)
Theorem laser_decay_never_rises (now later la : Z) :
  now <= later ->
  (laserOpacity false later la <= laserOpacity false now la)%Q.
Proof.
  intros Hle. unfold laserOpacity.
  destruct (laserOpacity_cases now la) as [[H E] | [[H E] | [H E]]];
    destruct (laserOpacity_cases later la) as [[H' E'] | [[H' E'] | [H' E']]];
    rewrite E, E'; cbn [fst]; try discriminate;
    try (exfalso; unfold LASER_FADE_MS, LASER_HOLD_MS in *; lia).
  - apply fade_range. unfold LASER_FADE_MS in *. lia.
  - destruct (Z.eq_dec now later) as [-> | Hne]; [apply Qle_refl|].
    apply Qlt_le_weak, fade_value_lt. lia.
  - apply Qlt_le_weak, fade_range. unfold LASER_FADE_MS in *. lia.
Qed.

Lemma laser_decay_never_rises_witness :
  Qle_bool (laserOpacity false 2900 0) (laserOpacity false 2100 0) = true.
Proof.
  apply Qle_bool_iff. apply (laser_decay_never_rises 2100 2900 0). lia.
Defined.

Section CompositorMore.
Context {M : JsMath}.

Lemma preparedMemCanvas_facts (sf : Surfaces) (canvas : Canvas) :
  (canvas_width (preparedMemCanvas sf canvas) == canvas_width canvas)%Q /\
  (canvas_height (preparedMemCanvas sf canvas) == canvas_height canvas)%Q /\
  isSome (context2d (preparedMemCanvas sf canvas))
  = match memCanvasRef sf with
    | Some m => isSome (context2d m)
    | None => true
    end.
Proof.
  unfold preparedMemCanvas. cbv zeta.
  set (m := match memCanvasRef sf with Some m => m | None => createCanvas end).
  assert (Hm : isSome (context2d m)
               = match memCanvasRef sf with
                 | Some m0 => isSome (context2d m0) | None => true end).
  { subst m. destruct (memCanvasRef sf); reflexivity. }
  destruct (Qeq_bool (canvas_width m) (canvas_width canvas)) eqn:Ew;
    destruct (Qeq_bool (canvas_height m) (canvas_height canvas)) eqn:Eh;
    cbn [negb orb].
  - apply Qeq_bool_iff in Ew. apply Qeq_bool_iff in Eh.
    repeat split; assumption.
  - cbn. rewrite <- Hm. repeat split; try reflexivity.
    destruct (context2d m); reflexivity.
  - cbn. rewrite <- Hm. repeat split; try reflexivity.
    destruct (context2d m); reflexivity.
  - cbn. rewrite <- Hm. repeat split; try reflexivity.
    destruct (context2d m); reflexivity.
Qed.

(** [redraw] on a surface it can paint, in one piece. *)
Lemma redraw_painting (P : Props) (st : State) (sf : Surfaces) (now : Z)
    (canvas : Canvas) (ctx memCtx : Ctx) :
  canvasRef sf = Some canvas ->
  context2d canvas = Some ctx ->
  context2d (preparedMemCanvas sf canvas) = Some memCtx ->
  let w := canvas_width canvas in
  let h := canvas_height canvas in
  let mem := preparedMemCanvas sf canvas in
  let life := laserOpacity (isDrawingLaser st) now (lastActive st) in
  let ink :=
    drawInk P st life
      (clearRect 0 0 (canvas_width mem) (canvas_height mem) memCtx) in
  r_surfaces (redraw P st sf now)
  = mkSurfaces
      (Some (with_context canvas
               (drawImage (CanvasBitmap (painted ink)) 0 0 None
                  (set_globalCompositeOperation "source-over"
                     (set_globalAlpha 1 (drawBackground P st sf w h ctx))))))
      (Some (with_context mem ink))
      (videoRef sf).
Proof.
  intros Hc Hx Hm. cbv zeta. unfold redraw. rewrite Hc, Hx.
  fold (preparedMemCanvas sf canvas). rewrite Hm.
  rewrite laserDecay_opacity. reflexivity.
Qed.

Lemma ready_contexts (sf : Surfaces) :
  surfaceReady sf = true ->
  exists canvas ctx memCtx,
    canvasRef sf = Some canvas /\ context2d canvas = Some ctx /\
    context2d (preparedMemCanvas sf canvas) = Some memCtx.
Proof.
  unfold surfaceReady. intros H.
  destruct (canvasRef sf) as [canvas|]; [|discriminate].
  destruct (context2d canvas) as [ctx|] eqn:Ex; [|discriminate].
  cbn [isSome andb] in H.
  destruct (preparedMemCanvas_facts sf canvas) as (_ & _ & Hs).
  rewrite H in Hs.
  destruct (context2d (preparedMemCanvas sf canvas)) as [memCtx|] eqn:Em;
    [|discriminate].
  exists canvas, ctx, memCtx. repeat split; assumption.
Qed.

(** A pass of [redraw] leaves the surfaces paintable, keeps the size of
    the visible canvas, and leaves the offscreen canvas with the size of
    the visible one. *)
Theorem redraw_keeps_surfaces_ready
    (P : Props) (st : State) (sf : Surfaces) (now : Z) :
  surfaceReady sf = true ->
  surfaceReady (r_surfaces (redraw P st sf now)) = true /\
  exists canvas canvas' mem',
    canvasRef sf = Some canvas /\
    canvasRef (r_surfaces (redraw P st sf now)) = Some canvas' /\
    memCanvasRef (r_surfaces (redraw P st sf now)) = Some mem' /\
    canvas_width canvas' = canvas_width canvas /\
    canvas_height canvas' = canvas_height canvas /\
    (canvas_width mem' == canvas_width canvas)%Q /\
    (canvas_height mem' == canvas_height canvas)%Q.
Proof.
  intros Hr.
  destruct (ready_contexts sf Hr) as (canvas & ctx & memCtx & Hc & Hx & Hm).
  rewrite (redraw_painting P st sf now canvas ctx memCtx Hc Hx Hm).
  split; [reflexivity|].
  destruct (preparedMemCanvas_facts sf canvas) as (Hw & Hh & _).
  eexists canvas, _, _. split; [exact Hc|].
  split; [reflexivity|]. split; [reflexivity|].
  cbn. repeat split; assumption.
Qed.




(** Laser strokes whose life has run out leave no ink: the ink layer is
    the one of the same slide with its laser strokes removed, so the
    clean-up that removes them does not change the picture. *)
Theorem faded_lasers_leave_no_ink
    (P : Props) (st : State) (life : Q) (c : Ctx) :
  (life <= 0)%Q ->
  drawInk P st life c
  = drawInk
      (with_slide P (with_strokes (slide P)
                       (filter notLaser (strokes (slide P)))))
      st life c.
Proof.
  intros Hl.
  assert (Hg : Qgtb life 0 = false).
  { unfold Qgtb. apply Qle_bool_iff in Hl. rewrite Hl. reflexivity. }
  unfold drawInk, andThen. cbn [slide with_slide strokes with_strokes].
  rewrite Hg. f_equal. revert c.
  induction (strokes (slide P)) as [|s l IH]; intros c; [reflexivity|].
  cbn [fold_left filter]. unfold notLaser at 1, isLaser at 1.
  destruct (ToolType_eqb (stroke_tool s) LASER) eqn:E; cbn [negb].
  - apply IH.
  - cbn [fold_left]. rewrite E. apply IH.
Qed.

(** On a paintable surface a pass schedules at most one clean-up, and
    schedules it exactly when the slide holds a laser stroke, no laser
    stroke is being drawn, and the last laser activity lies at least
    [LASER_HOLD_MS + LASER_FADE_MS] back. *)
Theorem cleanup_scheduled_iff
    (P : Props) (st : State) (sf : Surfaces) (now : Z) :
  surfaceReady sf = true ->
  (r_timeouts (redraw P st sf now) = [slide P] <->
   (exists s, In s (strokes (slide P)) /\ stroke_tool s = LASER) /\
   isDrawingLaser st = false /\
   LASER_HOLD_MS + LASER_FADE_MS <= now - lastActive st) /\
  (r_timeouts (redraw P st sf now) = [] \/
   r_timeouts (redraw P st sf now) = [slide P]).
Proof.
  intros Hr. split; [|apply redraw_timeouts].
  destruct (redraw_ready P st sf now Hr) as [Ht _]. cbv zeta in Ht.
  rewrite Ht. clear Ht.
  rewrite <- existsb_isLaser.
  destruct (existsb isLaser (strokes (slide P))); cbn [andb].
  2: { split; [intros H; discriminate H | intros (H & _); discriminate H]. }
  destruct (isDrawingLaser st) eqn:Ed.
  - rewrite andb_false_r.
    split; [intros H; discriminate H | intros (_ & H & _); discriminate H].
  - cbn [negb]. rewrite andb_true_r.
    destruct (laserDecay_idle_facts now (lastActive st)) as (_ & _ & Hpos).
    destruct (Qle_bool (laserOpacity false now (lastActive st)) 0) eqn:Eq.
    + split; [|reflexivity]. intros _. repeat split.
      apply Qle_bool_iff in Eq.
      destruct (Z.lt_ge_cases (now - lastActive st)
                  (LASER_HOLD_MS + LASER_FADE_MS)) as [Hlt | Hge];
        [|exact Hge].
      apply Hpos in Hlt. exfalso. exact (Qlt_not_le _ _ Hlt Eq).
    + split; [intros H; discriminate H|]. intros (_ & _ & Hge). exfalso.
      assert (Hp : (0 < laserOpacity false now (lastActive st))%Q).
      { apply Qnot_le_lt. intros Hle. apply Qle_bool_iff in Hle. congruence. }
      apply Hpos in Hp. lia.
Qed.

End CompositorMore.

Lemma redraw_keeps_surfaces_ready_witness :
  let P := mkProps (mkSlide "slide-1" "thumb" "full" [] EmptyString)
                   PEN "#000000" 4 None in
  let st := mkState false None None (0, 0)%Q 0 in
  let sf := mkSurfaces (Some (mkCanvas 1200 800 (Some freshCtx))) None true in
  surfaceReady (r_surfaces (redraw (M := approxMath) P st sf 1)) = true.
Proof.
  intros P st sf.
  apply (redraw_keeps_surfaces_ready (M := approxMath) P st sf 1).
  reflexivity.
Defined.


Lemma faded_lasers_leave_no_ink_witness :
  let trail := mkStroke "l" LASER [mkPoint 0 0 None; mkPoint 3 4 None]
                        "#EF4444" 4 None in
  let ink := mkStroke "p" PEN [mkPoint 1 1 None; mkPoint 2 2 None]
                      "#000000" 4 None in
  let P := mkProps (mkSlide "slide-1" "thumb" "full" [trail; ink] EmptyString)
                   PEN "#000000" 4 None in
  let st := mkState false None None (0, 0)%Q 0 in
  drawInk (M := approxMath) P st 0 freshCtx
  = drawInk (M := approxMath)
      (mkProps (mkSlide "slide-1" "thumb" "full" [ink] EmptyString)
               PEN "#000000" 4 None) st 0 freshCtx.
Proof.
  intros trail ink P st.
  apply (faded_lasers_leave_no_ink (M := approxMath) P st 0 freshCtx).
  discriminate.
Defined.

Lemma cleanup_scheduled_iff_witness :
  let trail := mkStroke "l" LASER [mkPoint 0 0 None; mkPoint 3 4 None]
                        "#EF4444" 4 None in
  let P := mkProps (mkSlide "slide-1" "thumb" "full" [trail] EmptyString)
                   PEN "#000000" 4 None in
  let st := mkState false None None (0, 0)%Q 0 in
  let sf := mkSurfaces (Some (mkCanvas 1200 800 (Some freshCtx))) None true in
  r_timeouts (redraw (M := approxMath) P st sf 3000) = [slide P].
Proof.
  intros trail P st sf.
  apply (cleanup_scheduled_iff (M := approxMath) P st sf 3000); [reflexivity|].
  split; [|split; [reflexivity | unfold LASER_HOLD_MS, LASER_FADE_MS; cbn; lia]].
  exists trail. split; [left; reflexivity | reflexivity].
Defined.

(* ================================================================== *)
(** * More on gestures, the clean-up and the laser's life cycle *)
(* ================================================================== *)

Lemma filter_length_eq {A} (f : A -> bool) (l : list A) :
  List.length (filter f l) = List.length l -> filter f l = l.
Proof.
  induction l as [|a l IH]; [reflexivity|]. cbn.
  destruct (f a); cbn; intros H.
  - f_equal. apply IH. lia.
  - pose proof (filter_length_le f l). lia.
Qed.

Lemma notLaser_filter_no_laser (l : list Stroke) (s : Stroke) :
  In s (filter notLaser l) -> stroke_tool s <> LASER.
Proof.
  intros H E. apply filter_In in H. destruct H as [_ H].
  unfold notLaser, isLaser in H. rewrite E in H. discriminate H.
Qed.

Lemma laserCleanup_cases (sl : Slide) :
  (laserCleanup sl = [] /\ filter notLaser (strokes sl) = strokes sl) \/
  (laserCleanup sl = [(slide_id sl, filter notLaser (strokes sl))] /\
   exists s, In s (strokes sl) /\ stroke_tool s = LASER).
Proof.
  unfold laserCleanup. fold notLaser. cbv zeta.
  destruct (Nat.eqb_spec (List.length (filter notLaser (strokes sl)))
                         (List.length (strokes sl))) as [E | E]; cbn [negb].
  - left. split; [reflexivity | apply filter_length_eq, E].
  - right. split; [reflexivity|].
    apply existsb_isLaser.
    destruct (existsb isLaser (strokes sl)) eqn:Ex; [reflexivity|].
    exfalso. apply E. f_equal. apply filter_all_true.
    intros s Hs. unfold notLaser. apply negb_true_iff.
    apply not_true_is_false. intros Hl.
    assert (Hex : existsb isLaser (strokes sl) = true)
      by (apply existsb_exists; exists s; split; assumption).
    congruence.
Qed.

(** What the clean-up callback does to the slide it captured: it makes at
    most one call; afterwards the list is the old one without its laser
    strokes, the others kept in order; and a second clean-up makes no
    call. *)
Theorem laser_cleanup_effect (sl : Slide) :
  let sl' := fold_left updateSlideStrokes (laserCleanup sl) sl in
  (List.length (laserCleanup sl) <= 1)%nat /\
  strokes sl' = filter notLaser (strokes sl) /\
  (forall s, In s (strokes sl') -> stroke_tool s <> LASER) /\
  slide_id sl' = slide_id sl /\
  laserCleanup sl' = [].
Proof.
  cbv zeta.
  assert (Hs : strokes (fold_left updateSlideStrokes (laserCleanup sl) sl)
               = filter notLaser (strokes sl) /\
               slide_id (fold_left updateSlideStrokes (laserCleanup sl) sl)
               = slide_id sl /\
               (List.length (laserCleanup sl) <= 1)%nat).
  { destruct (laserCleanup_cases sl) as [[E F] | [E _]]; rewrite E.
    - cbn. rewrite F. repeat split. lia.
    - cbn [fold_left]. rewrite updateSlideStrokes_same. cbn.
      repeat split. lia. }
  destruct Hs as (Hs & Hid & Hlen).
  split; [exact Hlen|]. split; [exact Hs|].
  split; [intros s; rewrite Hs; apply notLaser_filter_no_laser|].
  split; [exact Hid|].
  apply laserCleanup_no_laser. intros s. rewrite Hs.
  apply notLaser_filter_no_laser.
Qed.

Section Flow.
Context {M : JsMath}.

Lemma pointer_up_open (w : World) (t : Z) (cs : Stroke) :
  isDrawing (state w) = true ->
  currentStroke (state w) = Some cs ->
  step w (PointerUp t)
  = mkWorld
      (with_slide (props w)
         (with_strokes (slide (props w)) (strokes (slide (props w)) ++ [cs])))
      (mkState false None (backgroundImage (state w)) (cursorPos (state w))
               (touchLaser (props w) t (lastActive (state w))))
      (surfaces w) (timers w)
      (calls w ++ [(slide_id (slide (props w)),
                    strokes (slide (props w)) ++ [cs])])
      (frameRequested w).
Proof.
  intros Hd Hc. cbn [step].
  rewrite (stopDrawing_open (props w) t (state w) cs Hd Hc).
  unfold onUpdateSlide. cbn [props state surfaces timers calls frameRequested
                             fold_left].
  rewrite updateSlideStrokes_same. reflexivity.
Qed.

Lemma frame_step (w : World) (now : Z) :
  step w (AnimationFrame now)
  = mkWorld (props w) (state w)
      (r_surfaces (redraw (props w) (state w) (surfaces w) now))
      (timers w ++ r_timeouts (redraw (props w) (state w) (surfaces w) now))
      (calls w)
      (match r_return (redraw (props w) (state w) (surfaces w) now) with
       | Some true => true
       | _ => false
       end).
Proof.
  cbn [step]. unfold loop.
  destruct (r_return (redraw (props w) (state w) (surfaces w) now))
    as [[|]|]; reflexivity.
Qed.

(** When a pending clean-up fires for the slide on show, the persisted
    list becomes the list the callback captured when it was scheduled,
    minus its laser strokes, through one call of [onUpdateSlide]; what was
    committed to the slide since the scheduling is not in it. *)
Theorem pending_cleanup_writes_back_captured
    (w : World) (captured : Slide) (rest : list Slide) :
  timers w = captured :: rest ->
  slide_id captured = slide_id (slide (props w)) ->
  (exists s, In s (strokes captured) /\ stroke_tool s = LASER) ->
  strokes (slide (props (step w TimeoutFires)))
  = filter notLaser (strokes captured) /\
  calls (step w TimeoutFires)
  = calls w ++ [(slide_id captured, filter notLaser (strokes captured))] /\
  timers (step w TimeoutFires) = rest.
Proof.
  intros Ht Hid (s & Hin & Hl). cbn [step]. rewrite Ht.
  destruct (laserCleanup_cases captured) as [[E F] | [E _]].
  - exfalso. assert (Hs : In s (filter notLaser (strokes captured)))
      by (rewrite F; exact Hin).
    exact (notLaser_filter_no_laser _ _ Hs Hl).
  - rewrite E. unfold onUpdateSlide. cbn. rewrite Hid.
    rewrite updateSlideStrokes_same. cbn. repeat split.
Qed.

(** A move with no gesture open changes nothing but the cursor preview:
    no stroke is opened or extended, nothing is committed, and the laser
    activity time is not refreshed even with the laser selected. *)
Theorem hover_moves_only_cursor (w : World) (e : PointerInput) (now : Z) :
  isDrawing (state w) = false \/ currentStroke (state w) = None ->
  let w' := step w (PointerMove e now) in
  props w' = props w /\ calls w' = calls w /\ timers w' = timers w /\
  isDrawing (state w') = isDrawing (state w) /\
  currentStroke (state w') = currentStroke (state w) /\
  lastActive (state w') = lastActive (state w) /\
  cursorPos (state w')
  = match ev_cursor e with Some c => c | None => cursorPos (state w) end.
Proof.
  intros H. cbn [step props calls timers state]. unfold draw.
  assert (Hu : isDrawing (updateCursorPosition e (state w)) = isDrawing (state w)
               /\ currentStroke (updateCursorPosition e (state w))
                  = currentStroke (state w)
               /\ lastActive (updateCursorPosition e (state w))
                  = lastActive (state w)
               /\ cursorPos (updateCursorPosition e (state w))
                  = match ev_cursor e with
                    | Some c => c | None => cursorPos (state w) end).
  { unfold updateCursorPosition. destruct (ev_cursor e); repeat split. }
  destruct Hu as (U1 & U2 & U3 & U4).
  assert (Hg : negb (isDrawing (updateCursorPosition e (state w)))
               || negb (isSome (currentStroke (updateCursorPosition e (state w))))
               = true).
  { rewrite U1, U2. destruct H as [H | H]; rewrite H;
      [reflexivity | apply orb_true_r]. }
  rewrite Hg. repeat split; assumption.
Qed.

(** How one move extends an open gesture. *)
Lemma move_open (w : World) (e : PointerInput) (now : Z) (s : Stroke) :
  isDrawing (state w) = true ->
  currentStroke (state w) = Some s ->
  let w' := step w (PointerMove e now) in
  props w' = props w /\ calls w' = calls w /\ timers w' = timers w /\
  isDrawing (state w') = true /\
  currentStroke (state w')
  = Some (with_points s
            (if isShapeTool (tool (props w))
             then [at_index (points s) 0; ev_coords e]
             else points s ++ [ev_coords e])).
Proof.
  intros Hd Hc. cbn [step props calls timers state]. unfold draw.
  assert (Hu : isDrawing (updateCursorPosition e (state w)) = true
               /\ currentStroke (updateCursorPosition e (state w)) = Some s).
  { unfold updateCursorPosition. destruct (ev_cursor e); split; assumption. }
  destruct Hu as (U1 & U2). rewrite U1, U2. cbn [negb isSome orb].
  cbn [isDrawing currentStroke option_map].
  repeat split. destruct (isShapeTool (tool (props w))); reflexivity.
Qed.

Lemma run_snoc (w : World) (evs : list Event) (ev : Event) :
  run w (evs ++ [ev]) = step (run w evs) ev.
Proof. unfold run. rewrite fold_left_app. reflexivity. Qed.

Lemma moves_open (moves : list (PointerInput * Z)) :
  forall (w : World) (s : Stroke),
  isDrawing (state w) = true ->
  currentStroke (state w) = Some s ->
  let w' := run w (map moveEvent moves) in
  props w' = props w /\ calls w' = calls w /\ timers w' = timers w /\
  isDrawing (state w') = true /\
  exists s',
    currentStroke (state w') = Some s' /\
    stroke_id s' = stroke_id s /\ stroke_tool s' = stroke_tool s /\
    stroke_color s' = stroke_color s /\ stroke_width s' = stroke_width s /\
    isFilled s' = isFilled s /\
    points s'
    = (if isShapeTool (tool (props w)) then
         match rev moves with
         | [] => points s
         | m :: _ => [at_index (points s) 0; ev_coords (fst m)]
         end
       else points s ++ map (fun m => ev_coords (fst m)) moves).
Proof.
  induction moves as [|m moves IH] using rev_ind; intros w s Hd Hc.
  - cbv zeta. unfold run. cbn [map fold_left rev].
    repeat split; try assumption. exists s.
    repeat split; try assumption.
    destruct (isShapeTool (tool (props w))); [reflexivity|].
    rewrite app_nil_r. reflexivity.
  - cbv zeta. rewrite map_app. cbn [map]. rewrite run_snoc.
    destruct (IH w s Hd Hc)
      as (Hp & Hcl & Htm & Hd' & s1 & Hc1 & Hi & Ht & Hco & Hw & Hf & Hpts).
    destruct (move_open (run w (map moveEvent moves)) (fst m) (snd m) s1
                Hd' Hc1) as (Hp2 & Hcl2 & Htm2 & Hd2 & Hc2).
    cbv zeta in Hp2, Hcl2, Htm2, Hd2, Hc2.
    change (step (run w (map moveEvent moves)) (moveEvent m))
      with (step (run w (map moveEvent moves)) (PointerMove (fst m) (snd m))).
    split; [congruence|]. split; [congruence|]. split; [congruence|].
    split; [exact Hd2|].
    eexists. split; [exact Hc2|].
    cbn [with_points stroke_id stroke_tool stroke_color stroke_width isFilled
         points].
    repeat (split; [assumption|]).
    rewrite Hp. rewrite rev_app_distr. cbn [rev app].
    destruct (isShapeTool (tool (props w))).
    + f_equal. rewrite Hpts. destruct (rev moves); reflexivity.
    + rewrite Hpts, map_app, app_assoc. reflexivity.
Qed.

Lemma pointer_down_opens (w : World) (e : PointerInput) (uuid : string)
    (now : Z) :
  let w' := step w (PointerDown e uuid now) in
  props w' = props w /\ calls w' = calls w /\ timers w' = timers w /\
  isDrawing (state w') = true /\
  currentStroke (state w')
  = Some (mkStroke uuid (tool (props w)) [ev_coords e]
            (if ToolType_eqb (tool (props w)) ERASER
             then "#000000"%string else color (props w))
            (if ToolType_eqb (tool (props w)) ERASER
             then (width (props w) * 5)%Q else width (props w))
            None).
Proof. cbn. repeat split. Qed.

(** A gesture with a freehand tool (any tool but Rectangle, Circle and
    Arrow) keeps every point: after pointer-down and any number of moves
    the in-progress stroke holds the down point followed by every move's
    point in order, and release commits exactly that stroke at the end of
    the slide's list through one call of [onUpdateSlide]. *)
Theorem freehand_gesture_keeps_every_point
    (w : World) (e0 : PointerInput) (uuid : string) (t0 : Z)
    (moves : list (PointerInput * Z)) (t : Z) :
  isShapeTool (tool (props w)) = false ->
  let s :=
    mkStroke uuid (tool (props w))
      (ev_coords e0 :: map (fun m => ev_coords (fst m)) moves)
      (if ToolType_eqb (tool (props w)) ERASER
       then "#000000"%string else color (props w))
      (if ToolType_eqb (tool (props w)) ERASER
       then (width (props w) * 5)%Q else width (props w))
      None in
  let w1 := run w (PointerDown e0 uuid t0 :: map moveEvent moves) in
  let w2 := step w1 (PointerUp t) in
  currentStroke (state w1) = Some s /\
  isDrawing (state w1) = true /\
  strokes (slide (props w1)) = strokes (slide (props w)) /\
  calls w1 = calls w /\
  strokes (slide (props w2)) = strokes (slide (props w)) ++ [s] /\
  calls w2 = calls w ++ [(slide_id (slide (props w)),
                          strokes (slide (props w)) ++ [s])] /\
  isDrawing (state w2) = false /\
  currentStroke (state w2) = None.
Proof.
  intros Hshape s w1 w2.
  destruct (pointer_down_opens w e0 uuid t0) as (Hp0 & Hc0 & Ht0 & Hd0 & Hs0).
  destruct (moves_open moves (step w (PointerDown e0 uuid t0)) _ Hd0 Hs0)
    as (Hp & Hcl & Htm & Hd & s1 & Hc1 & Hi & Ht & Hco & Hw & Hf & Hpts).
  change (run (step w (PointerDown e0 uuid t0)) (map moveEvent moves))
    with w1 in *.
  rewrite Hp0, Hshape in Hpts. cbn in Hi, Ht, Hco, Hw, Hf, Hpts.
  assert (Es : s1 = s).
  { destruct s1. cbn in *. subst. reflexivity. }
  subst s1.
  assert (Hpw : props w1 = props w) by congruence.
  assert (Hcw : calls w1 = calls w) by congruence.
  split; [exact Hc1|]. split; [exact Hd|].
  split; [rewrite Hpw; reflexivity|]. split; [exact Hcw|].
  subst w2. rewrite (pointer_up_open w1 t s Hd Hc1).
  cbn [props state calls slide with_slide strokes with_strokes isDrawing
       currentStroke].
  rewrite Hpw, Hcw. repeat split.
Qed.

(** A gesture with Rectangle, Circle or Arrow keeps two points: after
    pointer-down and one or more moves the in-progress stroke holds the
    down point and the latest move's point, however many moves came in
    between, and release commits that stroke. *)
Theorem shape_gesture_keeps_two_points
    (w : World) (e0 : PointerInput) (uuid : string) (t0 : Z)
    (moves : list (PointerInput * Z)) (m : PointerInput * Z) (t : Z) :
  isShapeTool (tool (props w)) = true ->
  let s :=
    mkStroke uuid (tool (props w)) [ev_coords e0; ev_coords (fst m)]
             (color (props w)) (width (props w)) None in
  let w1 := run w (PointerDown e0 uuid t0 :: map moveEvent (moves ++ [m])) in
  let w2 := step w1 (PointerUp t) in
  currentStroke (state w1) = Some s /\
  isDrawing (state w1) = true /\
  strokes (slide (props w2)) = strokes (slide (props w)) ++ [s] /\
  calls w2 = calls w ++ [(slide_id (slide (props w)),
                          strokes (slide (props w)) ++ [s])].
Proof.
  intros Hshape s w1 w2.
  assert (He : ToolType_eqb (tool (props w)) ERASER = false).
  { destruct (tool (props w)); try reflexivity; discriminate Hshape. }
  destruct (pointer_down_opens w e0 uuid t0) as (Hp0 & Hc0 & Ht0 & Hd0 & Hs0).
  destruct (moves_open (moves ++ [m]) (step w (PointerDown e0 uuid t0)) _
              Hd0 Hs0)
    as (Hp & Hcl & Htm & Hd & s1 & Hc1 & Hi & Ht & Hco & Hw & Hf & Hpts).
  change (run (step w (PointerDown e0 uuid t0)) (map moveEvent (moves ++ [m])))
    with w1 in *.
  rewrite Hp0, Hshape in Hpts. rewrite rev_app_distr in Hpts.
  rewrite He in *. cbn in Hi, Ht, Hco, Hw, Hf, Hpts.
  assert (Es : s1 = s).
  { destruct s1. cbn in *. subst. reflexivity. }
  subst s1.
  assert (Hpw : props w1 = props w) by congruence.
  assert (Hcw : calls w1 = calls w) by congruence.
  split; [exact Hc1|]. split; [exact Hd|].
  subst w2. rewrite (pointer_up_open w1 t s Hd Hc1).
  cbn [props state calls slide with_slide strokes with_strokes].
  rewrite Hpw, Hcw. split; reflexivity.
Qed.

(** Which events touch the persisted list: pointer-down, moves, frames
    and the tool, colour, width and stream selections leave the slide and
    the call log as they are; and no event makes more than one call of
    [onUpdateSlide]. *)
Theorem slide_changes_only_on_release_cleanup_clear (w : World) (ev : Event) :
  (exists us, calls (step w ev) = calls w ++ us /\ (List.length us <= 1)%nat) /\
  (match ev with
   | PointerUp _ | TimeoutFires | ClearSlide => False
   | _ => True
   end ->
   slide (props (step w ev)) = slide (props w) /\
   calls (step w ev) = calls w).
Proof.
  split.
  - destruct ev as [e uuid now | e now | now | now | | t | c | v | s |];
      try (exists []; cbn [step calls]; rewrite app_nil_r;
           split; [reflexivity | cbn; lia]).
    + cbn [step]. unfold stopDrawing.
      destruct (isDrawing (state w)); [destruct (currentStroke (state w))|];
        unfold onUpdateSlide; cbn [calls];
        eexists; (split; [reflexivity | cbn; lia]).
    + rewrite frame_step. exists []. cbn [calls]. rewrite app_nil_r.
      split; [reflexivity | cbn; lia].
    + cbn [step]. destruct (timers w) as [|captured rest].
      * exists []. rewrite app_nil_r. split; [reflexivity | cbn; lia].
      * unfold onUpdateSlide. cbn [calls]. eexists. split; [reflexivity|].
        destruct (laserCleanup_cases captured) as [[E _] | [E _]];
          rewrite E; cbn; lia.
  - destruct ev as [e uuid now | e now | now | now | | t | c | v | s |];
      intros H; try contradiction; try (split; reflexivity).
    rewrite frame_step. split; reflexivity.
Qed.

Lemma step_keeps_attributes (w : World) (ev : Event) (s' : Stroke) :
  (forall e uuid now, ev <> PointerDown e uuid now) ->
  currentStroke (state (step w ev)) = Some s' ->
  exists s, currentStroke (state w) = Some s /\
    stroke_id s' = stroke_id s /\ stroke_tool s' = stroke_tool s /\
    stroke_color s' = stroke_color s /\ stroke_width s' = stroke_width s /\
    isFilled s' = isFilled s.
Proof.
  intros Hnd.
  destruct ev as [e uuid now | e now | now | now | | t | c | v | s |];
    try (cbn [step state]; intros H; exists s'; repeat split; exact H).
  - exfalso. exact (Hnd e uuid now eq_refl).
  - cbn [step state]. intros H.
    destruct (draw_points _ _ _ _ _ H) as (s0 & Hs0 & _).
    exists s0. split; [exact Hs0|].
    revert H. unfold draw.
    assert (Hu : currentStroke (updateCursorPosition e (state w)) = Some s0)
      by (unfold updateCursorPosition; destruct (ev_cursor e); exact Hs0).
    destruct (negb (isDrawing (updateCursorPosition e (state w)))
              || negb (isSome (currentStroke
                                 (updateCursorPosition e (state w))))).
    + rewrite Hu. intros H. inversion H; subst. repeat split.
    + cbn [currentStroke]. rewrite Hu.
      destruct (isShapeTool (tool (props w))); cbn; intros H;
        inversion H; subst; repeat split.
  - cbn [step]. unfold stopDrawing.
    destruct (isDrawing (state w)) eqn:Hd;
      [destruct (currentStroke (state w)) eqn:Hc|];
      unfold onUpdateSlide; cbn [state currentStroke]; intros H;
      try discriminate H.
    + rewrite Hc in H. discriminate H.
    + exists s'. repeat split. exact H.
  - rewrite frame_step. cbn [state]. intros H. exists s'. repeat split. exact H.
  - cbn [step]. destruct (timers w); [|unfold onUpdateSlide]; cbn [state];
      intros H; exists s'; repeat split; exact H.
Qed.

(** The in-progress stroke carries the id, tool, colour and width fixed at
    pointer-down: whatever moves, frames, timeouts and changes of the
    selected tool, colour or width follow, as long as no new pointer-down
    occurs, the stroke in progress (if any) still has them. *)
Theorem stroke_attributes_fixed_at_pointer_down
    (evs : list Event) (w : World) (s s' : Stroke) :
  currentStroke (state w) = Some s ->
  (forall ev, In ev evs -> forall e uuid now, ev <> PointerDown e uuid now) ->
  currentStroke (state (run w evs)) = Some s' ->
  stroke_id s' = stroke_id s /\ stroke_tool s' = stroke_tool s /\
  stroke_color s' = stroke_color s /\ stroke_width s' = stroke_width s /\
  isFilled s' = isFilled s.
Proof.
  revert s'. induction evs as [|ev evs IH] using rev_ind; intros s' Hs Hnd Hf.
  - cbn in Hf. rewrite Hs in Hf. inversion Hf; subst. repeat split.
  - rewrite run_snoc in Hf.
    destruct (step_keeps_attributes (run w evs) ev s') as (s1 & H1 & Ha).
    + apply Hnd. apply in_or_app. right. left. reflexivity.
    + exact Hf.
    + assert (IH' := IH s1 Hs
                (fun ev0 Hin => Hnd ev0 (in_or_app _ _ _ (or_introl Hin))) H1).
      destruct Ha as (A1 & A2 & A3 & A4 & A5).
      destruct IH' as (B1 & B2 & B3 & B4 & B5).
      repeat split; congruence.
Qed.

(** The laser activity time is written only by the pointer handlers and
    only while the Laser tool is selected: a pointer-down, a move inside a
    gesture, and a release of an open gesture set it to the clock reading;
    everything else, and every event under another tool, leaves it. *)
Theorem last_active_written_only_by_laser (w : World) (ev : Event) :
  (tool (props w) <> LASER ->
   lastActive (state (step w ev)) = lastActive (state w)) /\
  (tool (props w) = LASER ->
   match ev with
   | PointerDown _ _ now => lastActive (state (step w ev)) = now
   | PointerMove _ now | PointerUp now =>
       if isDrawing (state w) && isSome (currentStroke (state w))
       then lastActive (state (step w ev)) = now
       else lastActive (state (step w ev)) = lastActive (state w)
   | _ => lastActive (state (step w ev)) = lastActive (state w)
   end).
Proof.
  assert (Hu : forall e,
    isDrawing (updateCursorPosition e (state w)) = isDrawing (state w) /\
    currentStroke (updateCursorPosition e (state w)) = currentStroke (state w) /\
    lastActive (updateCursorPosition e (state w)) = lastActive (state w)).
  { intros e. unfold updateCursorPosition. destruct (ev_cursor e);
      repeat split. }
  split; intros Ht.
  - assert (Hl : ToolType_eqb (tool (props w)) LASER = false).
    { destruct (ToolType_eqb (tool (props w)) LASER) eqn:E; [|reflexivity].
      apply ToolType_eqb_eq in E. contradiction. }
    destruct ev as [e uuid now | e now | now | now | | t | c | v | s |];
      try reflexivity.
    + cbn [step state]. unfold startDrawing, touchLaser. cbn [lastActive].
      rewrite Hl. apply Hu.
    + cbn [step state]. unfold draw, touchLaser.
      destruct (Hu e) as (U1 & U2 & U3).
      destruct (negb (isDrawing (updateCursorPosition e (state w)))
                || negb (isSome (currentStroke
                                   (updateCursorPosition e (state w)))));
        [exact U3 | cbn [lastActive]; rewrite Hl; exact U3].
    + cbn [step]. unfold stopDrawing, touchLaser.
      destruct (isDrawing (state w)); [destruct (currentStroke (state w))|];
        unfold onUpdateSlide; cbn [state lastActive]; rewrite ?Hl; reflexivity.
    + rewrite frame_step. reflexivity.
    + cbn [step]. destruct (timers w); reflexivity.
  - assert (Hl : ToolType_eqb (tool (props w)) LASER = true)
      by (apply ToolType_eqb_eq; exact Ht).
    destruct ev as [e uuid now | e now | now | now | | t | c | v | s |];
      try reflexivity.
    + cbn [step state]. unfold startDrawing, touchLaser. cbn [lastActive].
      rewrite Hl. reflexivity.
    + cbn [step state]. unfold draw, touchLaser.
      destruct (Hu e) as (U1 & U2 & U3). rewrite U1, U2.
      destruct (isDrawing (state w)); cbn [negb orb andb]; [|exact U3].
      destruct (currentStroke (state w)); cbn [isSome negb];
        [cbn [lastActive]; rewrite Hl; reflexivity | exact U3].
    + cbn [step]. unfold stopDrawing, touchLaser.
      destruct (isDrawing (state w)); [destruct (currentStroke (state w))|];
        unfold onUpdateSlide; cbn [state lastActive isSome andb];
        rewrite ?Hl; reflexivity.
    + rewrite frame_step. reflexivity.
    + cbn [step]. destruct (timers w); reflexivity.
Qed.

(** The life of a laser trail from release to removal, on a surface
    [redraw] can paint (canvas mounted, both canvases handing out a 2D
    context).  Releasing a laser gesture at [t] commits the trail and
    starts the clock; every pass before
    [t + LASER_HOLD_MS + LASER_FADE_MS] schedules nothing and asks for
    another frame; a pass from then on schedules the clean-up and asks for
    another frame only if a stream is attached; and when that timeout
    fires (nothing else pending) every laser stroke is gone from the slide
    while the other strokes stay in order. *)
Theorem laser_trail_lifecycle (w : World) (cs : Stroke) (t : Z) :
  surfaceReady (surfaces w) = true ->
  tool (props w) = LASER ->
  isDrawing (state w) = true ->
  currentStroke (state w) = Some cs ->
  stroke_tool cs = LASER ->
  let w1 := step w (PointerUp t) in
  strokes (slide (props w1)) = strokes (slide (props w)) ++ [cs] /\
  lastActive (state w1) = t /\
  (forall now, now - t < LASER_HOLD_MS + LASER_FADE_MS ->
     timers (step w1 (AnimationFrame now)) = timers w /\
     frameRequested (step w1 (AnimationFrame now)) = true) /\
  (forall now, LASER_HOLD_MS + LASER_FADE_MS <= now - t ->
     timers (step w1 (AnimationFrame now)) = timers w ++ [slide (props w1)] /\
     frameRequested (step w1 (AnimationFrame now))
     = isSome (screenStream (props w)) /\
     (timers w = [] ->
      strokes (slide (props (run w1 [AnimationFrame now; TimeoutFires])))
      = filter notLaser (strokes (slide (props w))) /\
      calls (run w1 [AnimationFrame now; TimeoutFires])
      = calls w
        ++ [(slide_id (slide (props w)), strokes (slide (props w)) ++ [cs]);
            (slide_id (slide (props w)),
             filter notLaser (strokes (slide (props w))))])).
Proof.
  intros Hr Ht Hd Hc Hcs w1.
  assert (Hl : ToolType_eqb (tool (props w)) LASER = true)
    by (apply ToolType_eqb_eq; exact Ht).
  assert (E1 : w1 = _ ) by (exact (pointer_up_open w t cs Hd Hc)).
  unfold touchLaser in E1. rewrite Hl in E1. clearbody w1.
  assert (Hex : existsb isLaser (strokes (slide (props w)) ++ [cs]) = true).
  { rewrite existsb_app. cbn. unfold isLaser at 2. rewrite Hcs. cbn.
    apply orb_true_r. }
  assert (Hfil : filter notLaser (strokes (slide (props w)) ++ [cs])
                 = filter notLaser (strokes (slide (props w)))).
  { rewrite filter_app. cbn. unfold notLaser at 2, isLaser. rewrite Hcs. cbn.
    apply app_nil_r. }
  assert (Hready : forall now,
    r_timeouts (redraw (props w1) (state w1) (surfaces w1) now)
    = (if Qle_bool (laserOpacity false now t) 0 then [slide (props w1)] else [])
    /\ r_return (redraw (props w1) (state w1) (surfaces w1) now)
      = Some (Qgtb (laserOpacity false now t) 0
              || isSome (screenStream (props w)))).
  { intros now.
    destruct (redraw_ready (props w1) (state w1) (surfaces w1) now) as [A B].
    - rewrite E1. exact Hr.
    - cbv zeta in A, B. rewrite A, B. rewrite E1.
      cbn [props state surfaces slide with_slide strokes with_strokes
           isDrawing currentStroke lastActive screenStream].
      unfold isDrawingLaser. cbn [isDrawing andb negb orb].
      rewrite Hex. cbn [andb]. rewrite andb_true_r. split; reflexivity. }
  split; [rewrite E1; reflexivity|]. split; [rewrite E1; reflexivity|].
  assert (Htm1 : timers w1 = timers w) by (rewrite E1; reflexivity).
  split.
  - intros now Hn. rewrite frame_step. cbn [timers frameRequested].
    destruct (Hready now) as [A B]. rewrite A, B, Htm1.
    assert (Hpos : (0 < laserOpacity false now t)%Q)
      by (apply laserDecay_idle_facts; exact Hn).
    assert (Hg : Qgtb (laserOpacity false now t) 0 = true)
      by (apply Qgtb_lt; exact Hpos).
    assert (Hq : Qle_bool (laserOpacity false now t) 0 = false).
    { unfold Qgtb in Hg. apply negb_true_iff in Hg. exact Hg. }
    rewrite Hg, Hq, app_nil_r. split; reflexivity.
  - intros now Hn.
    destruct (Hready now) as [A B].
    assert (Hz : laserOpacity false now t = 0%Q)
      by (apply laserOpacity_idle; exact Hn).
    rewrite Hz in A, B. cbn in A, B.
    assert (F : step w1 (AnimationFrame now) = _) by (exact (frame_step w1 now)).
    rewrite A, B, Htm1 in F.
    split; [rewrite F; reflexivity|].
    split; [rewrite F; cbn; destruct (isSome (screenStream (props w)));
            reflexivity|].
    intros Hnil. unfold run. cbn [fold_left]. rewrite F. cbn [step timers].
    rewrite Hnil. cbn [app].
    destruct (laserCleanup_cases (slide (props w1))) as [[C Fl] | [C _]].
    + exfalso. rewrite E1 in Fl. cbn in Fl. rewrite Hfil in Fl.
      assert (Hin : In cs (filter notLaser (strokes (slide (props w)))))
        by (rewrite Fl; apply in_or_app; right; left; reflexivity).
      exact (notLaser_filter_no_laser _ _ Hin Hcs).
    + rewrite C. unfold onUpdateSlide.
      cbn [props calls fold_left slide with_slide].
      rewrite updateSlideStrokes_same. rewrite E1.
      cbn [props slide with_slide strokes with_strokes slide_id calls].
      rewrite Hfil, <- app_assoc. split; reflexivity.
Qed.

End Flow.

Lemma pending_cleanup_writes_back_captured_witness :
  let trail := mkStroke "l" LASER [mkPoint 0 0 None; mkPoint 3 4 None]
                        "#EF4444" 4 None in
  let ink := mkStroke "p" PEN [mkPoint 1 1 None; mkPoint 2 2 None]
                      "#000000" 4 None in
  let captured := mkSlide "slide-1" "thumb" "full" [trail] EmptyString in
  let w := mkWorld
             (mkProps (mkSlide "slide-1" "thumb" "full" [trail; ink] EmptyString)
                      PEN "#000000" 4 None)
             (mkState false None None (0, 0)%Q 0)
             (mkSurfaces None None false) [captured] [] false in
  strokes (slide (props (step (M := approxMath) w TimeoutFires))) = [].
Proof.
  intros trail ink captured w.
  apply (pending_cleanup_writes_back_captured (M := approxMath) w captured []);
    try reflexivity.
  exists trail. split; [left; reflexivity | reflexivity].
Defined.

Lemma hover_moves_only_cursor_witness :
  let w := mkWorld
             (mkProps (mkSlide "slide-1" "thumb" "full" [] EmptyString)
                      LASER "#EF4444" 4 None)
             (mkState false None None (0, 0)%Q 7)
             (mkSurfaces None None false) [] [] false in
  lastActive (state (step (M := approxMath) w
                       (PointerMove (mkPointerInput (Some (5, 6)%Q)
                                       (mkPoint 1 1 (Some 50))) 50)))
  = 7.
Proof.
  intros w.
  apply (hover_moves_only_cursor (M := approxMath) w
           (mkPointerInput (Some (5, 6)%Q) (mkPoint 1 1 (Some 50))) 50).
  left. reflexivity.
Defined.

Lemma freehand_gesture_keeps_every_point_witness :
  let w := mkWorld
             (mkProps (mkSlide "slide-1" "thumb" "full" [] EmptyString)
                      HIGHLIGHTER "#F59E0B" 8 None)
             (mkState false None None (0, 0)%Q 0)
             (mkSurfaces None None false) [] [] false in
  let e0 := mkPointerInput None (mkPoint 0 0 None) in
  let moves := [(mkPointerInput None (mkPoint 1 1 None), 2);
                (mkPointerInput None (mkPoint 2 3 None), 3);
                (mkPointerInput None (mkPoint 4 4 None), 4)] in
  List.length
    (strokes (slide (props
       (step (M := approxMath)
          (run (M := approxMath) w
             (PointerDown e0 "h" 1 :: map moveEvent moves))
          (PointerUp 5)))))
  = 1%nat.
Proof.
  intros w e0 moves.
  destruct (freehand_gesture_keeps_every_point (M := approxMath) w e0
              "h" 1 moves 5 eq_refl) as (_ & _ & _ & _ & H & _).
  rewrite H. reflexivity.
Defined.

Lemma shape_gesture_keeps_two_points_witness :
  let w := mkWorld
             (mkProps (mkSlide "slide-1" "thumb" "full" [] EmptyString)
                      ARROW "#F59E0B" 8 None)
             (mkState false None None (0, 0)%Q 0)
             (mkSurfaces None None false) [] [] false in
  let e0 := mkPointerInput None (mkPoint 0 0 None) in
  let moves := [(mkPointerInput None (mkPoint 1 1 None), 2);
                (mkPointerInput None (mkPoint 2 3 None), 3)] in
  let m := (mkPointerInput None (mkPoint 9 9 None), 4) in
  currentStroke (state
    (run (M := approxMath) w
       (PointerDown e0 "a" 1 :: map moveEvent (moves ++ [m]))))
  = Some (mkStroke "a" ARROW [mkPoint 0 0 None; mkPoint 9 9 None]
                   "#F59E0B" 8 None).
Proof.
  intros w e0 moves m.
  apply (shape_gesture_keeps_two_points (M := approxMath) w e0 "a" 1
           moves m 5 eq_refl).
Defined.

Lemma slide_changes_only_on_release_cleanup_clear_witness :
  let w := mkWorld
             (mkProps (mkSlide "slide-1" "thumb" "full" [] EmptyString)
                      PEN "#000000" 4 None)
             (mkState false None None (0, 0)%Q 0)
             (mkSurfaces None None false) [] [] false in
  slide (props (step (M := approxMath) w (SelectTool LASER))) = slide (props w).
Proof.
  intros w.
  apply (slide_changes_only_on_release_cleanup_clear (M := approxMath) w
           (SelectTool LASER)).
  exact I.
Defined.

Lemma stroke_attributes_fixed_at_pointer_down_witness :
  let s := mkStroke "a" PEN [mkPoint 0 0 None] "#000000" 4 None in
  let w := mkWorld
             (mkProps (mkSlide "slide-1" "thumb" "full" [] EmptyString)
                      PEN "#000000" 4 None)
             (mkState true (Some s) None (0, 0)%Q 0)
             (mkSurfaces None None false) [] [] false in
  let evs := [SelectTool RECTANGLE; SelectColor "#EF4444"; SelectWidth 20;
              PointerMove (mkPointerInput None (mkPoint 5 5 None)) 3] in
  exists s',
    currentStroke (state (run (M := approxMath) w evs)) = Some s' /\
    stroke_tool s' = PEN /\ stroke_width s' = 4%Q.
Proof.
  intros s w evs. eexists. split; [reflexivity|].
  match goal with
  | |- stroke_tool ?x = _ /\ _ =>
      destruct (stroke_attributes_fixed_at_pointer_down (M := approxMath)
                  evs w s x eq_refl) as (_ & Ht & _ & Hw & _)
  end.
  - intros ev Hin e uuid now E. subst ev.
    cbn in Hin. repeat (destruct Hin as [Hin | Hin]; [discriminate Hin|]).
    exact Hin.
  - reflexivity.
  - split; [exact Ht | exact Hw].
Defined.

Lemma last_active_written_only_by_laser_witness :
  let w := mkWorld
             (mkProps (mkSlide "slide-1" "thumb" "full" [] EmptyString)
                      PEN "#000000" 4 None)
             (mkState false None None (0, 0)%Q 7)
             (mkSurfaces None None false) [] [] false in
  lastActive (state (step (M := approxMath) w
                       (PointerDown (mkPointerInput None (mkPoint 1 1 None))
                                    "a" 50)))
  = 7.
Proof.
  intros w.
  apply (last_active_written_only_by_laser (M := approxMath) w
           (PointerDown (mkPointerInput None (mkPoint 1 1 None)) "a" 50)).
  discriminate.
Defined.

Lemma laser_trail_lifecycle_witness :
  let trail := mkStroke "l" LASER [mkPoint 0 0 None; mkPoint 3 4 None]
                        "#EF4444" 4 None in
  let ink := mkStroke "p" PEN [mkPoint 1 1 None; mkPoint 2 2 None]
                      "#000000" 4 None in
  let w := mkWorld
             (mkProps (mkSlide "slide-1" "thumb" "full" [ink] EmptyString)
                      LASER "#EF4444" 4 None)
             (mkState true (Some trail) None (0, 0)%Q 0)
             (mkSurfaces (Some (mkCanvas 1200 800 (Some freshCtx))) None true)
             [] [] false in
  strokes (slide (props (step (M := approxMath) w (PointerUp 100))))
  = [ink; trail].
Proof.
  intros trail ink w.
  apply (laser_trail_lifecycle (M := approxMath) w trail 100); reflexivity.
Defined.

Lemma laser_cleanup_effect_witness :
  let trail := mkStroke "l" LASER [mkPoint 0 0 None; mkPoint 3 4 None]
                        "#EF4444" 4 None in
  let ink := mkStroke "p" PEN [mkPoint 1 1 None; mkPoint 2 2 None]
                      "#000000" 4 None in
  let sl := mkSlide "slide-1" "thumb" "full" [trail; ink; trail] EmptyString in
  strokes (fold_left updateSlideStrokes (laserCleanup sl) sl) = [ink].
Proof.
  intros trail ink sl.
  apply (laser_cleanup_effect sl).
Defined.

(* ================================================================== *)
(** * Pointer coordinates *)
(* ================================================================== *)

(** [getCoords] stretches the rendered rectangle of the canvas onto its
    pixel grid: the rectangle's top-left corner is pixel (0,0), its
    bottom-right corner is pixel (width, height), and when the canvas is
    rendered at its pixel size a pointer position maps to its offset from
    the top-left corner.  The point carries the clock reading. *)
Theorem getCoords_maps_rect_onto_canvas
    (cv : Canvas) (rect : DOMRect) (now : Z) (cx cy : Q) :
  ~ (rect_width rect == 0)%Q ->
  ~ (rect_height rect == 0)%Q ->
  (exists p, getCoords (Some (cv, rect))
               (MouseEvt (rect_left rect) (rect_top rect)) now = Some p /\
             (px p == 0)%Q /\ (py p == 0)%Q /\ pt p = Some now) /\
  (exists p, getCoords (Some (cv, rect))
               (MouseEvt (rect_left rect + rect_width rect)
                         (rect_top rect + rect_height rect)) now = Some p /\
             (px p == canvas_width cv)%Q /\ (py p == canvas_height cv)%Q) /\
  ((rect_width rect == canvas_width cv)%Q ->
   (rect_height rect == canvas_height cv)%Q ->
   exists p, getCoords (Some (cv, rect)) (MouseEvt cx cy) now = Some p /\
             (px p == cx - rect_left rect)%Q /\
             (py p == cy - rect_top rect)%Q).
Proof.
  intros Hw Hh. split; [|split].
  - eexists. split; [reflexivity|]. cbn [px py pt].
    split; [ring | split; [ring | reflexivity]].
  - eexists. split; [reflexivity|]. cbn [px py].
    split; field; assumption.
  - intros Ew Eh. eexists. split; [reflexivity|]. cbn [px py].
    rewrite <- Ew, <- Eh. split; field; assumption.
Qed.

Lemma getCoords_maps_rect_onto_canvas_witness :
  let cv := mkCanvas 1920 1080 None in
  let rect := mkDOMRect 10 20 960 540 in
  exists p, getCoords (Some (cv, rect)) (MouseEvt (10 + 960) (20 + 540)) 5
            = Some p /\
            (px p == 1920)%Q /\ (py p == 1080)%Q.
Proof.
  intros cv rect.
  apply (getCoords_maps_rect_onto_canvas cv rect 5 0 0); discriminate.
Defined.

(** Edge cases of reading a pointer event.  Without a canvas [getCoords]
    answers the origin with no timestamp, whatever the event; a touch event
    is read through its first touch only; a touch event with no touches
    makes [getCoords] on a canvas throw, and makes the handlers' reading
    throw even without one, since the cursor position is read first. *)
Theorem pointer_reading_edge_cases
    (container : option DOMRect) (canvas : option (Canvas * DOMRect))
    (e : PointerEvt) (x y : Q) (rest : list (Q * Q)) (now : Z) :
  getCoords None e now = Some (mkPoint 0 0 None) /\
  getCoords canvas (TouchEvt ((x, y) :: rest)) now
  = getCoords canvas (MouseEvt x y) now /\
  readPointer container canvas (TouchEvt ((x, y) :: rest)) now
  = readPointer container canvas (MouseEvt x y) now /\
  (canvas <> None -> getCoords canvas (TouchEvt []) now = None) /\
  readPointer container canvas (TouchEvt []) now = None /\
  (exists input, readPointer container canvas (MouseEvt x y) now = Some input).
Proof.
  repeat split.
  - destruct canvas as [[cv rect]|]; [reflexivity | congruence].
  - unfold readPointer. cbn.
    destruct canvas as [[cv rect]|]; eexists; reflexivity.
Qed.

(* ================================================================== *)
(** * The host application *)
(* ================================================================== *)

Lemma nth_error_map_update (l : list Slide) (slideId : string)
    (strokes0 : list Stroke) (i : nat) :
  nth_error
    (map (fun sl => if String.eqb (slide_id sl) slideId
                    then with_strokes sl strokes0 else sl) l) i
  = option_map (fun sl => if String.eqb (slide_id sl) slideId
                          then with_strokes sl strokes0 else sl)
               (nth_error l i).
Proof. apply nth_error_map. Qed.

Lemma project_update_facts
    (s : App.AppState) (p : App.Project) (slideId : string)
    (strokes0 : list Stroke) :
  App.currentProject s = Some p ->
  exists p',
    App.currentProject (App.updateSlideStrokes slideId strokes0 s) = Some p' /\
    List.length (App.slides p') = List.length (App.slides p) /\
    map slide_id (App.slides p') = map slide_id (App.slides p) /\
    (forall i sl, nth_error (App.slides p) i = Some sl ->
       nth_error (App.slides p') i
       = Some (if String.eqb (slide_id sl) slideId
               then with_strokes sl strokes0 else sl)) /\
    App.currentSlideIndex (App.updateSlideStrokes slideId strokes0 s)
    = App.currentSlideIndex s /\
    App.tool (App.updateSlideStrokes slideId strokes0 s) = App.tool s /\
    (forall sl, App.currentSlide s = Some sl -> slide_id sl = slideId ->
       App.currentSlide (App.updateSlideStrokes slideId strokes0 s)
       = Some (with_strokes sl strokes0)).
Proof.
  intros Hp. unfold App.updateSlideStrokes. rewrite Hp. cbv zeta.
  eexists. split; [reflexivity|]. cbn [App.slides App.with_slides].
  split; [apply length_map|].
  split.
  { rewrite map_map. apply map_ext. intros sl.
    destruct (String.eqb (slide_id sl) slideId); reflexivity. }
  split.
  { intros i sl Hi. rewrite nth_error_map_update, Hi. reflexivity. }
  split; [reflexivity|]. split; [reflexivity|].
  intros sl Hc Hid. unfold App.currentSlide in *.
  cbn [App.currentProject App.with_project App.currentSlideIndex App.slides
       App.with_slides].
  rewrite Hp in Hc. rewrite nth_error_map_update, Hc. cbn [option_map].
  rewrite Hid, String.eqb_refl. reflexivity.
Qed.

(** [updateSlideStrokes] replaces the stroke list of the slides whose id
    is the one given and of no other: the project keeps its slides in
    number, order and id, the slide index and the selected tool stay, and
    the slide on show, looked up after an update addressed to it, is that
    slide with the new strokes.  With no project open the call does
    nothing. *)
Theorem project_update_replaces_matching_strokes
    (s : App.AppState) (slideId : string) (strokes0 : list Stroke) :
  (App.currentProject s = None ->
   App.updateSlideStrokes slideId strokes0 s = s) /\
  (forall p, App.currentProject s = Some p ->
   exists p',
    App.currentProject (App.updateSlideStrokes slideId strokes0 s) = Some p' /\
    List.length (App.slides p') = List.length (App.slides p) /\
    map slide_id (App.slides p') = map slide_id (App.slides p) /\
    (forall i sl, nth_error (App.slides p) i = Some sl ->
       nth_error (App.slides p') i
       = Some (if String.eqb (slide_id sl) slideId
               then with_strokes sl strokes0 else sl)) /\
    App.currentSlideIndex (App.updateSlideStrokes slideId strokes0 s)
    = App.currentSlideIndex s /\
    App.tool (App.updateSlideStrokes slideId strokes0 s) = App.tool s /\
    (forall sl, App.currentSlide s = Some sl -> slide_id sl = slideId ->
       App.currentSlide (App.updateSlideStrokes slideId strokes0 s)
       = Some (with_strokes sl strokes0))).
Proof.
  split.
  - intros Hn. unfold App.updateSlideStrokes. rewrite Hn. reflexivity.
  - intros p Hp. apply project_update_facts, Hp.
Qed.

Lemma project_update_replaces_matching_strokes_witness :
  let a := mkSlide "a" "t" "f" [] EmptyString in
  let b := mkSlide "b" "t" "f" [] EmptyString in
  let ink := mkStroke "p" PEN [mkPoint 1 1 None] "#000000" 4 None in
  let s := App.mkAppState (Some (App.mkProject "p" "deck" 0 [a; b])) 1 PEN
                          "#000000" 4 in
  App.currentSlide (App.updateSlideStrokes "b" [ink] s)
  = Some (with_strokes b [ink]).
Proof.
  intros a b ink s.
  destruct (proj2 (project_update_replaces_matching_strokes s "b" [ink])
              (App.mkProject "p" "deck" 0 [a; b]) eq_refl)
    as (p' & _ & _ & _ & _ & _ & _ & H).
  apply H; reflexivity.
Defined.

(** Slide navigation never leaves the project's slides: from an index in
    range, [nextSlide] and [prevSlide] give an index in range, so the slide
    on show exists; they never touch the project; and stepping forward and
    back, or back and forward, returns to the same state whenever the first
    step moved. *)
Theorem navigation_stays_in_range (s : App.AppState) (p : App.Project) :
  App.currentProject s = Some p ->
  (App.currentSlideIndex s < List.length (App.slides p))%nat ->
  indexInRange (App.nextSlide s) /\
  indexInRange (App.prevSlide s) /\
  App.currentSlide (App.nextSlide s) <> None /\
  App.currentSlide (App.prevSlide s) <> None /\
  App.currentProject (App.nextSlide s) = Some p /\
  App.currentProject (App.prevSlide s) = Some p /\
  (App.nextSlide s <> s -> App.prevSlide (App.nextSlide s) = s) /\
  (App.prevSlide s <> s -> App.nextSlide (App.prevSlide s) = s).
Proof.
  destruct s as [proj i t c wd]. cbn [App.currentProject App.currentSlideIndex].
  intros Hp Hr. subst proj.
  unfold indexInRange, App.nextSlide, App.prevSlide, App.currentSlide.
  cbn [App.currentProject App.currentSlideIndex].
  destruct (Z.ltb_spec (Z.of_nat i) (Z.of_nat (List.length (App.slides p)) - 1))
    as [Hn | Hn];
    destruct (Z.ltb_spec 0 (Z.of_nat i)) as [Hz | Hz];
    cbn [App.with_index App.currentProject App.currentSlideIndex].
  - split; [lia|]. split; [lia|].
    split; [apply nth_error_Some; lia|]. split; [apply nth_error_Some; lia|].
    split; [reflexivity|]. split; [reflexivity|].
    split; intros _.
    + destruct (Z.ltb_spec 0 (Z.of_nat (i + 1))); [|lia].
      unfold App.with_index. cbn. f_equal. lia.
    + destruct (Z.ltb_spec (Z.of_nat (i - 1))
                  (Z.of_nat (List.length (App.slides p)) - 1)); [|lia].
      unfold App.with_index. cbn. f_equal. lia.
  - split; [lia|]. split; [lia|].
    split; [apply nth_error_Some; lia|]. split; [apply nth_error_Some; lia|].
    split; [reflexivity|]. split; [reflexivity|].
    split; [intros _ | intros H; congruence].
    destruct (Z.ltb_spec 0 (Z.of_nat (i + 1))); [|lia].
    unfold App.with_index. cbn. f_equal. lia.
  - split; [lia|]. split; [lia|].
    split; [apply nth_error_Some; lia|]. split; [apply nth_error_Some; lia|].
    split; [reflexivity|]. split; [reflexivity|].
    split; [intros H; congruence | intros _].
    destruct (Z.ltb_spec (Z.of_nat (i - 1))
                (Z.of_nat (List.length (App.slides p)) - 1)); [|lia].
    unfold App.with_index. cbn. f_equal. lia.
  - split; [lia|]. split; [lia|].
    split; [apply nth_error_Some; lia|]. split; [apply nth_error_Some; lia|].
    split; [reflexivity|]. split; [reflexivity|].
    split; intros H; congruence.
Qed.

Lemma navigation_stays_in_range_witness :
  let a := mkSlide "a" "t" "f" [] EmptyString in
  let b := mkSlide "b" "t" "f" [] EmptyString in
  let p := App.mkProject "p" "deck" 0 [a; b] in
  let s := App.mkAppState (Some p) 0 PEN "#000000" 4 in
  App.prevSlide (App.nextSlide s) = s.
Proof.
  intros a b p s.
  apply (navigation_stays_in_range s p); [reflexivity | cbn; lia |].
  discriminate.
Defined.

(** Clearing the slide on show empties its stroke list and leaves the
    slides with other ids, the slide index and the project's shape as they
    are; with no project open it does nothing; and with a project whose
    index points at no slide (a project without slides) it throws. *)
Theorem clear_slide_empties_current (s : App.AppState) :
  (App.currentProject s = None -> App.handleClearSlide s = Some s) /\
  (forall p, App.currentProject s = Some p -> App.currentSlide s = None ->
     App.handleClearSlide s = None) /\
  (forall p sl, App.currentProject s = Some p -> App.currentSlide s = Some sl ->
     exists s' p',
       App.handleClearSlide s = Some s' /\
       App.currentProject s' = Some p' /\
       App.currentSlide s' = Some (with_strokes sl []) /\
       App.currentSlideIndex s' = App.currentSlideIndex s /\
       List.length (App.slides p') = List.length (App.slides p) /\
       (forall i other, nth_error (App.slides p) i = Some other ->
          slide_id other <> slide_id sl ->
          nth_error (App.slides p') i = Some other)).
Proof.
  split.
  { intros H. unfold App.handleClearSlide. rewrite H. reflexivity. }
  split.
  { intros p Hp Hn. unfold App.handleClearSlide, App.currentSlide in *.
    rewrite Hp in *. rewrite Hn. reflexivity. }
  intros p sl Hp Hc.
  destruct (project_update_facts s p (slide_id sl) [] Hp)
    as (p' & H1 & H2 & _ & H4 & H5 & _ & H7).
  exists (App.updateSlideStrokes (slide_id sl) [] s), p'.
  split.
  { unfold App.handleClearSlide. unfold App.currentSlide in Hc.
    rewrite Hp in *. rewrite Hc. reflexivity. }
  split; [exact H1|]. split; [apply H7; [exact Hc | reflexivity]|].
  split; [exact H5|]. split; [exact H2|].
  intros i other Hi Hne. rewrite (H4 i other Hi).
  destruct (String.eqb_spec (slide_id other) (slide_id sl));
    [contradiction | reflexivity].
Qed.

Lemma clear_slide_empties_current_witness :
  let ink := mkStroke "p" PEN [mkPoint 1 1 None] "#000000" 4 None in
  let a := mkSlide "a" "t" "f" [ink] EmptyString in
  let b := mkSlide "b" "t" "f" [ink] EmptyString in
  let s := App.mkAppState (Some (App.mkProject "p" "deck" 0 [a; b])) 1 PEN
                          "#000000" 4 in
  exists s' p',
    App.handleClearSlide s = Some s' /\
    App.currentProject s' = Some p' /\
    App.currentSlide s' = Some (with_strokes b []).
Proof.
  intros ink a b s.
  destruct (proj2 (proj2 (clear_slide_empties_current s))
              (App.mkProject "p" "deck" 0 [a; b]) b eq_refl eq_refl)
    as (s' & p' & H1 & H2 & H3 & _).
  exists s', p'. repeat split; assumption.
Defined.

(** ** The recording clock and the saved file *)

Lemma splitColon_app (a b : string) :
  noColon a = true ->
  splitColon (a ++ String ":" b) = Some (a, b).
Proof.
  induction a as [|c a IH]; intros H; [reflexivity|].
  cbn in H. apply andb_true_iff in H. destruct H as [Hc Ha].
  cbn [append splitColon]. apply negb_true_iff in Hc. rewrite Hc.
  rewrite (IH Ha). reflexivity.
Qed.

Lemma noColon_digits (d : Decimal.uint) :
  noColon (NilEmpty.string_of_uint d) = true.
Proof. induction d; cbn; auto. Qed.

Lemma toString_noColon (n : nat) : noColon (App.toString n) = true.
Proof.
  unfold App.toString, NilZero.string_of_uint.
  destruct (Nat.to_uint n); try apply noColon_digits. reflexivity.
Qed.

Lemma to_uint_not_nil (n : nat) : Nat.to_uint n <> Decimal.Nil.
Proof.
  intros E. pose proof (DecimalNat.Unsigned.of_to n) as H. rewrite E in H.
  cbn in H. subst n. discriminate E.
Qed.

Lemma readDecimal_toString (n : nat) : readDecimal (App.toString n) = Some n.
Proof.
  unfold readDecimal, App.toString.
  rewrite NilZero.usu by apply to_uint_not_nil.
  cbn [option_map]. rewrite DecimalNat.Unsigned.of_to. reflexivity.
Qed.

Lemma secondsField_checked : forallb secondsFieldOk (seq 0 60) = true.
Proof. vm_compute. reflexivity. Qed.

Lemma secondsField (k : nat) :
  (k < 60)%nat ->
  String.length (App.padStart 2 "0" (App.toString k)) = 2%nat /\
  readDecimal (App.padStart 2 "0" (App.toString k)) = Some k.
Proof.
  intros Hk. pose proof secondsField_checked as H.
  rewrite forallb_forall in H.
  assert (Hin : In k (seq 0 60)) by (apply in_seq; lia).
  specialize (H k Hin). unfold secondsFieldOk in H.
  apply andb_true_iff in H. destruct H as [H1 H2].
  apply Nat.eqb_eq in H1. split; [exact H1|].
  destruct (readDecimal (App.padStart 2 "0" (App.toString k))) as [k'|];
    [|discriminate H2].
  apply Nat.eqb_eq in H2. congruence.
Qed.

(** [formatTime] writes a number of seconds as minutes, a colon and a
    seconds field of exactly two digits, and the text reads back to the
    same number: no two durations are shown alike. *)
Theorem formatTime_reads_back (seconds : nat) :
  parseTime (App.formatTime seconds) = Some seconds /\
  (exists ss,
     App.formatTime seconds
     = (App.toString (seconds / 60) ++ String ":" ss)%string /\
     String.length ss = 2%nat /\
     readDecimal ss = Some (seconds mod 60)%nat) /\
  (forall other, App.formatTime other = App.formatTime seconds ->
     other = seconds).
Proof.
  assert (Hparse : forall n, parseTime (App.formatTime n) = Some n).
  { intros n. unfold parseTime, App.formatTime. cbv zeta.
    change (":" ++ App.padStart 2 "0" (App.toString (n mod 60)))%string
      with (String ":" (App.padStart 2 "0" (App.toString (n mod 60)))).
    rewrite splitColon_app by apply toString_noColon.
    rewrite readDecimal_toString.
    destruct (secondsField (n mod 60)) as [_ Hs];
      [apply Nat.mod_upper_bound; discriminate|].
    rewrite Hs. f_equal.
    pose proof (Nat.div_mod_eq n 60). lia. }
  split; [apply Hparse|]. split.
  - eexists. split; [reflexivity|].
    apply secondsField. apply Nat.mod_upper_bound. discriminate.
  - intros other E. pose proof (Hparse other) as Ho.
    rewrite E, Hparse in Ho. congruence.
Qed.

(** The container chosen for a recording is [video/mp4] when the recorder
    supports it, else the first supported of the two WebM codecs, else
    plain [video/webm]; whatever is chosen other than that fallback is
    supported; and the saved file gets the extension [mp4] exactly when
    [video/mp4] is supported, [webm] otherwise. *)
Theorem recording_extension_follows_support
    (isTypeSupported : string -> bool) (videoFilename : string) :
  (App.chooseMimeType isTypeSupported = "video/webm"%string \/
   isTypeSupported (App.chooseMimeType isTypeSupported) = true) /\
  (App.fileExtension (App.chooseMimeType isTypeSupported) = "mp4"%string <->
   isTypeSupported "video/mp4"%string = true) /\
  (isTypeSupported "video/mp4"%string = false ->
   App.downloadName videoFilename (App.chooseMimeType isTypeSupported)
   = (videoFilename ++ ".webm")%string) /\
  (isTypeSupported "video/mp4"%string = true ->
   App.chooseMimeType isTypeSupported = "video/mp4"%string /\
   App.downloadName videoFilename (App.chooseMimeType isTypeSupported)
   = (videoFilename ++ ".mp4")%string).
Proof.
  unfold App.chooseMimeType, App.downloadName.
  destruct (isTypeSupported "video/mp4"%string) eqn:E1.
  - split; [right; exact E1|].
    split; [split; intros _; reflexivity|].
    split; [intros H; discriminate H | intros _; split; reflexivity].
  - destruct (isTypeSupported "video/webm;codecs=h264"%string) eqn:E2;
      [|destruct (isTypeSupported "video/webm;codecs=vp9"%string) eqn:E3].
    + split; [right; exact E2|].
      split; [split; intros H; [vm_compute in H|]; discriminate H|].
      split; [intros _; reflexivity | intros H; discriminate H].
    + split; [right; exact E3|].
      split; [split; intros H; [vm_compute in H|]; discriminate H|].
      split; [intros _; reflexivity | intros H; discriminate H].
    + split; [left; reflexivity|].
      split; [split; intros H; [vm_compute in H|]; discriminate H|].
      split; [intros _; reflexivity | intros H; discriminate H].
Qed.

Lemma recording_extension_follows_support_witness :
  App.downloadName "lesson-2026-11-03"
    (App.chooseMimeType (fun t => String.eqb t "video/webm;codecs=vp9"))
  = "lesson-2026-11-03.webm"%string.
Proof.
  apply (recording_extension_follows_support
           (fun t => String.eqb t "video/webm;codecs=vp9")
           "lesson-2026-11-03").
  reflexivity.
Defined.

Lemma pointer_reading_edge_cases_witness :
  getCoords (Some (mkCanvas 1920 1080 None, mkDOMRect 0 0 960 540))
            (TouchEvt []) 5
  = None.
Proof.
  apply (pointer_reading_edge_cases None
           (Some (mkCanvas 1920 1080 None, mkDOMRect 0 0 960 540))
           (TouchEvt []) 0 0 [] 5).
  discriminate.
Defined.

Lemma formatTime_reads_back_witness :
  parseTime (App.formatTime 65) = Some 65%nat /\
  App.formatTime 65 = "1:05"%string.
Proof.
  split; [apply (formatTime_reads_back 65) | reflexivity].
Defined.
